(** * BEARDOWN-TP: a shallow embedding of [protocol.py], of the sender of
  [beardown_sender_student.py] and of the fault injector of [TestHarness.py].

  Python integers are [Z]; [bytes] objects are lists of [Byte.byte];
  [len(x)] is [len x : Z]; slices are [take]/[drop]; an exception raised
  by the code is the [Raise] branch of [result]; floats are idealised as
  real numbers. *)

From Stdlib Require Import ZArith Lia String Ascii Reals Lra.
From Stdlib.Strings Require Import Byte.
From Stdlib Require Import HexadecimalString.
From stdpp Require Import base list strings pretty.

Local Open Scope Z_scope.

(** [lia] also decides goals with division and remainder by a constant. *)
Ltac Zify.zify_post_hook ::= Z.div_mod_to_equations.

(** ** Python values *)

Module Py.

(** A [bytes] object. *)
Abbreviation bytes := (list byte).

(** [b[i]] read as an integer in [0, 256). *)
Definition byte_val (b : byte) : Z := Z.of_N (Byte.to_N b).

(** The byte holding an integer of [0, 256). *)
Definition byte_of_Z (v : Z) : byte :=
  match Byte.of_N (Z.to_N v) with
  | Some b => b
  | None => x00
  end.

(** [len(x)] *)
Definition len {A} (l : list A) : Z := Z.of_nat (length l).

(** [x[:k]] and [x[k:]] for a non-negative [k]. *)
Definition slice_to {A} (k : Z) (l : list A) : list A := take (Z.to_nat k) l.
Definition slice_from {A} (k : Z) (l : list A) : list A := drop (Z.to_nat k) l.

(** Exceptions the modelled code can raise. *)
Inductive exn : Type :=
| ValueError (msg : string)
| StructError (msg : string)
| IndexError (msg : string)
| ZeroDivisionError (msg : string)
| OverflowError (msg : string).

(** [str(e)] *)
Definition str_exn (e : exn) : string :=
  match e with
  | ValueError msg | StructError msg | IndexError msg
  | ZeroDivisionError msg | OverflowError msg => msg
  end.

Inductive result (A : Type) : Type :=
| Ok (a : A)
| Raise (e : exn).
Arguments Ok {A} a.
Arguments Raise {A} e.

#[export] Instance result_ret : MRet result := fun A a => Ok a.
#[export] Instance result_bind : MBind result := fun A B f m =>
  match m with
  | Ok a => f a
  | Raise e => Raise e
  end.

Definition is_ok {A} (r : result A) : bool :=
  match r with Ok _ => true | Raise _ => false end.

(** [a % b] on integers: the sign of the result follows [b]. *)
Definition py_mod (a b : Z) : result Z :=
  if decide (b = 0) then Raise (ZeroDivisionError "integer modulo by zero")
  else Ok (a `mod` b).

(** [l[i]] for a non-negative index. *)
Definition getitem {A} (l : list A) (i : Z) : result A :=
  match l !! Z.to_nat i with
  | Some x => Ok x
  | None => Raise (IndexError "list index out of range")
  end.

(** The format spec [04x]: lower-case hexadecimal, zero-padded to four digits. *)
Definition hex_digits (v : Z) : string :=
  NilEmpty.string_of_uint (N.to_hex_uint (Z.to_N v)).

Fixpoint zero_pad (n : nat) (s : string) : string :=
  match n with
  | O => s
  | S n' => String "0" (zero_pad n' s)
  end.

Definition format_04x (v : Z) : string :=
  let d := hex_digits v in
  zero_pad (4 - String.length d) d.

(** [struct.pack] of one ['B'] field. *)
Definition pack_B (v : Z) : result bytes :=
  if (0 <=? v) && (v <=? 255) then Ok [byte_of_Z v]
  else Raise (StructError "ubyte format requires 0 <= number <= 255").

(** [struct.pack] of one ['H'] field in network byte order. *)
Definition pack_H (v : Z) : result bytes :=
  if (0 <=? v) && (v <=? 65535)
  then Ok [byte_of_Z (Z.shiftr v 8); byte_of_Z (Z.land v 255)]
  else Raise (StructError "ushort format requires 0 <= number <= 65535").

(** [struct.pack('!BBBHH', a, b, c, d, e)] *)
Definition pack_BBBHH (a b c d e : Z) : result bytes :=
  ba ← pack_B a; bb ← pack_B b; bc ← pack_B c;
  bd ← pack_H d; be ← pack_H e;
  mret (ba ++ bb ++ bc ++ bd ++ be).

(** A big-endian 16-bit field read back. *)
Definition unpack_H (hi lo : byte) : Z :=
  Z.lor (Z.shiftl (byte_val hi) 8) (byte_val lo).

(** [struct.unpack('!BBBHH', buf)] *)
Definition unpack_BBBHH (buf : bytes) : result (Z * Z * Z * Z * Z) :=
  match buf with
  | [b0; b1; b2; b3; b4; b5; b6] =>
      Ok (byte_val b0, byte_val b1, byte_val b2, unpack_H b3 b4, unpack_H b5 b6)
  | _ => Raise (StructError "unpack requires a buffer of 7 bytes")
  end.

End Py.
Import Py.

(** ** protocol.py: constants *)

Definition PACKET_HEADER_SIZE : Z := 7.
Definition MAX_PAYLOAD_SIZE : Z := 1000.
Definition MAX_SEGMENT_SIZE : Z := PACKET_HEADER_SIZE + MAX_PAYLOAD_SIZE.
Definition CHECKSUM_SIZE : Z := 2.

Module Flags.
Definition SYN : Z := 0x01.
Definition ACK : Z := 0x02.
Definition FIN : Z := 0x04.
Definition DATA : Z := 0x08.
End Flags.

(** ** protocol.py: class InternetChecksum *)

Module InternetChecksum.

(** The [for i in range(0, len(data), 2)] loop: [data[i + 1]] raises
    [IndexError] when a last byte has no partner. *)
Fixpoint sum_words (data : bytes) (sum_val : Z) : result Z :=
  match data with
  | [] => Ok sum_val
  | [_] => Raise (IndexError "index out of range")
  | hi :: lo :: rest =>
      let word := Z.lor (Z.shiftl (byte_val hi) 8) (byte_val lo) in
      sum_words rest (sum_val + word)
  end.

(** One turn of [while (sum_val >> 16) > 0]; [fuel] bounds the number of
    turns and an exhausted loop hands back the accumulator it has. *)
Fixpoint add_carries (fuel : nat) (sum_val : Z) : Z :=
  if Z.shiftr sum_val 16 >? 0 then
    match fuel with
    | O => sum_val
    | S fuel' => add_carries fuel' (Z.land sum_val 0xFFFF + Z.shiftr sum_val 16)
    end
  else sum_val.

(** Enough turns for the loop to leave by its own test
    (see [add_carries_exits]). *)
Definition carry_fuel (sum_val : Z) : nat := S (Z.to_nat (Z.shiftr sum_val 16)).

(** The same loop as a big-step relation, with no bound on the turns. *)
Inductive carry_loop : Z -> Z -> Prop :=
| carry_exit sum_val :
    ¬ (Z.shiftr sum_val 16 > 0) -> carry_loop sum_val sum_val
| carry_turn sum_val final :
    Z.shiftr sum_val 16 > 0 ->
    carry_loop (Z.land sum_val 0xFFFF + Z.shiftr sum_val 16) final ->
    carry_loop sum_val final.

(** [data] after [if len(data) % 2 == 1: data = data + b'\x00']. *)
Definition padded (data : bytes) : bytes :=
  if decide (len data `mod` 2 = 1) then data ++ [x00] else data.

Definition calculate (data : bytes) : result Z :=
  let data := padded data in
  sum_val ← sum_words data 0;
  let sum_val := add_carries (carry_fuel sum_val) sum_val in
  mret (Z.land (Z.lnot sum_val) 0xFFFF).

Definition verify (packet_with_checksum : bytes) (stored_checksum : Z) : result bool :=
  calculated ← calculate packet_with_checksum;
  mret (bool_decide (calculated = stored_checksum)).

End InternetChecksum.

(** ** protocol.py: class PacketStructure *)

Module PacketStructure.

Definition create_packet (seq_num ack_num flags : Z) (data : bytes) : result bytes :=
  if decide (len data > MAX_PAYLOAD_SIZE) then
    Raise (ValueError ("Payload size " +:+ pretty (len data) +:+ " exceeds maximum "
                       +:+ pretty MAX_PAYLOAD_SIZE))
  else
    let length := len data in
    header ← pack_BBBHH (Z.land seq_num 0xFF) (Z.land ack_num 0xFF)
                         (Z.land flags 0xFF) length 0;
    let packet := header ++ data in
    checksum ← InternetChecksum.calculate packet;
    header ← pack_BBBHH (Z.land seq_num 0xFF) (Z.land ack_num 0xFF)
                         (Z.land flags 0xFF) length checksum;
    mret (header ++ data).

Definition parse_packet (packet : bytes) : result (Z * Z * Z * Z * bytes * Z) :=
  if decide (len packet < PACKET_HEADER_SIZE) then
    Raise (ValueError ("Packet too short: " +:+ pretty (len packet) +:+ " < "
                       +:+ pretty PACKET_HEADER_SIZE))
  else
    '(seq_num, ack_num, flags, length, checksum) ←
      unpack_BBBHH (slice_to PACKET_HEADER_SIZE packet);
    let data := slice_from PACKET_HEADER_SIZE packet in
    if decide (len data ≠ length) then
      Raise (ValueError ("Data length mismatch: expected " +:+ pretty length
                         +:+ ", got " +:+ pretty (len data)))
    else
      mret (seq_num, ack_num, flags, length, data, checksum).

(** The body of the [try] block of [validate_packet]. *)
Definition validate_packet_try (packet : bytes) : result (bool * string) :=
  if decide (len packet < PACKET_HEADER_SIZE) then
    mret (false, "Packet too short: " +:+ pretty (len packet) +:+ " bytes")
  else
    '(seq_num, ack_num, flags, length, checksum) ←
      unpack_BBBHH (slice_to PACKET_HEADER_SIZE packet);
    let expected_total_size := PACKET_HEADER_SIZE + length in
    if decide (len packet ≠ expected_total_size) then
      mret (false, "Length mismatch: packet " +:+ pretty (len packet)
                   +:+ " vs expected " +:+ pretty expected_total_size)
    else
      let packet_for_checksum :=
        slice_to (PACKET_HEADER_SIZE - CHECKSUM_SIZE) packet
        ++ [x00; x00] ++ slice_from PACKET_HEADER_SIZE packet in
      calculated_checksum ← InternetChecksum.calculate packet_for_checksum;
      if decide (calculated_checksum ≠ checksum) then
        mret (false, "Checksum mismatch: expected " +:+ format_04x checksum
                     +:+ ", got " +:+ format_04x calculated_checksum)
      else
        mret (true, EmptyString).

(** [validate_packet]: the [try] block under its two [except] clauses. *)
Definition validate_packet (packet : bytes) : bool * string :=
  match validate_packet_try packet with
  | Ok r => r
  | Raise (StructError msg) => (false, "Struct unpacking error: " +:+ msg)
  | Raise e => (false, "Unexpected error: " +:+ str_exn e)
  end.

End PacketStructure.


(** ** protocol.py: class SequenceNumberManager *)

Module SequenceNumberManager.

Record t : Type := mk { modulo : Z; seq_num : Z }.

Definition init (modulo : Z) : t := {| modulo := modulo; seq_num := 0 |}.

Definition get_current (self : t) : Z := seq_num self.

Definition increment (self : t) : result t :=
  v ← py_mod (seq_num self + 1) (modulo self);
  mret {| modulo := modulo self; seq_num := v |}.

Definition reset (self : t) : t := {| modulo := modulo self; seq_num := 0 |}.

Definition is_expected (self : t) (received_seq : Z) : bool :=
  bool_decide (received_seq = seq_num self).

Definition is_duplicate (self : t) (received_seq : Z) : result bool :=
  prev_seq ← py_mod (seq_num self - 1) (modulo self);
  mret (bool_decide (received_seq = prev_seq)).

(** The states a manager built with [modulo] can be in. *)
Inductive reachable (modulo : Z) : t -> Prop :=
| reach_init : reachable modulo (init modulo)
| reach_increment self self' :
    reachable modulo self -> increment self = Ok self' -> reachable modulo self'
| reach_reset self :
    reachable modulo self -> reachable modulo (reset self).

(** [increment] called [n] times in a row. *)
Fixpoint increments (n : nat) (self : t) : result t :=
  match n with
  | O => Ok self
  | S n' => self' ← increment self; increments n' self'
  end.

End SequenceNumberManager.

(** ** protocol.py: class TimeoutManager

    Floats are idealised as reals: rounding is left out, and so is the
    silent overflow of a sum or a product to infinity. The one float
    operation of the class that raises, the square of a deviation that
    leaves the range of a float, is modelled as the code has it. *)

Module TimeoutManager.
Local Open Scope R_scope.

(** [min(a, b)] and [max(a, b)]: the first argument wins a tie. *)
Definition py_min (a b : R) : R := if Rlt_dec b a then b else a.
Definition py_max (a b : R) : R := if Rlt_dec a b then b else a.

(** [sum(xs)] *)
Definition py_sum (xs : list R) : R := fold_left Rplus xs 0.

Record t : Type := mk {
  initial_timeout : R;
  current_timeout : R;
  min_timeout : R;
  max_timeout : R;
  rtt_samples : list R;
  max_samples : Z
}.

Definition init (initial_timeout : R) : t :=
  {| initial_timeout := initial_timeout;
     current_timeout := initial_timeout;
     min_timeout := 1 / 10;
     max_timeout := 30;
     rtt_samples := [];
     max_samples := 50 |}.

Definition set_current_timeout (v : R) (self : t) : t :=
  {| initial_timeout := initial_timeout self;
     current_timeout := v;
     min_timeout := min_timeout self;
     max_timeout := max_timeout self;
     rtt_samples := rtt_samples self;
     max_samples := max_samples self |}.

Definition set_rtt_samples (xs : list R) (self : t) : t :=
  {| initial_timeout := initial_timeout self;
     current_timeout := current_timeout self;
     min_timeout := min_timeout self;
     max_timeout := max_timeout self;
     rtt_samples := xs;
     max_samples := max_samples self |}.

(** What [str] gives for the [OverflowError] of a float power. *)
Definition RESULT_OUT_OF_RANGE : string := "(34, 'Numerical result out of range')".

(** [(x - avg_rtt) ** 2]: the power of a float raises [OverflowError] when
    its result leaves the range of a float, which the square of a float
    does from a magnitude of [2 ^ 512] (about 1.34e154) on, where the
    square reaches [2 ^ 1024]. *)
Definition squared_deviation (x avg_rtt : R) : result R :=
  if Rle_dec (2 ^ 1024) ((x - avg_rtt) ^ 2)
  then Raise (OverflowError RESULT_OUT_OF_RANGE)
  else Ok ((x - avg_rtt) ^ 2).

(** [sum((x - avg_rtt) ** 2 for x in xs)] from the accumulator [acc] on:
    [sum] draws the squares one at a time, so the first one that raises
    ends it. *)
Fixpoint sum_squared_deviations (xs : list R) (avg_rtt acc : R) : result R :=
  match xs with
  | [] => Ok acc
  | x :: rest =>
      square ← squared_deviation x avg_rtt;
      sum_squared_deviations rest avg_rtt (acc + square)
  end.

(** The manager after [_update_timeout], or the exception that left it as
    it was: the assignment to [current_timeout] is the last statement. *)
Definition _update_timeout (self : t) : result t :=
  match rtt_samples self with
  | [] => Ok self
  | _ =>
      let n := IZR (len (rtt_samples self)) in
      let avg_rtt := py_sum (rtt_samples self) / n in
      squares ← sum_squared_deviations (rtt_samples self) avg_rtt 0;
      let std_dev := sqrt (squares / n) in
      let new_timeout := avg_rtt + 4 * std_dev in
      Ok (set_current_timeout
            (py_max (min_timeout self) (py_min (max_timeout self) new_timeout)) self)
  end.

(** The manager after [record_rtt] and the exception the call raised, if
    any: the window is updated before [_update_timeout] runs, so it holds
    the new sample also when [_update_timeout] raises. *)
Definition record_rtt (rtt : R) (self : t) : t * option exn :=
  let samples := rtt_samples self ++ [rtt] in
  let samples :=
    if decide (len samples > max_samples self)%Z then drop 1 samples else samples in
  let self := set_rtt_samples samples self in
  match _update_timeout self with
  | Ok self' => (self', None)
  | Raise e => (self, Some e)
  end.

Definition get_timeout (self : t) : R := current_timeout self.

Definition on_retransmission (self : t) : t :=
  set_current_timeout (py_min (current_timeout self * 2) (max_timeout self)) self.

Definition on_successful_ack (self : t) : t :=
  set_current_timeout (py_max (current_timeout self * (9 / 10)) (min_timeout self)) self.

(** One call on a manager. *)
Inductive call : Type :=
| RecordRtt (rtt : R)
| OnRetransmission
| OnSuccessfulAck.

(** The manager after the call [c], whether it returned or raised. *)
Definition run_call (c : call) (self : t) : t :=
  match c with
  | RecordRtt rtt => fst (record_rtt rtt self)
  | OnRetransmission => on_retransmission self
  | OnSuccessfulAck => on_successful_ack self
  end.

(** The calls of [cs] in order, first call first. *)
Definition run (cs : list call) (self : t) : t :=
  fold_left (fun s c => run_call c s) cs self.

(** The samples handed to [record_rtt] along [cs], oldest first. *)
Definition recorded (cs : list call) : list R :=
  flat_map (fun c => match c with RecordRtt rtt => [rtt] | _ => [] end) cs.

End TimeoutManager.

(** ** TestHarness.py: NetworkSimulator._corrupt_packet *)

Module NetworkSimulator.

(** [random.randint(lo, hi)] may return [draw]. *)
Definition randint (lo hi draw : Z) : Prop := lo <= draw <= hi.

(** [bytes(xs)] of a list of integers. *)
Fixpoint bytes_of_ints (xs : list Z) : result bytes :=
  match xs with
  | [] => Ok []
  | x :: rest =>
      if (0 <=? x) && (x <? 256) then
        bs ← bytes_of_ints rest; mret (byte_of_Z x :: bs)
      else Raise (ValueError "bytes must be in range(0, 256)")
  end.

(** [_corrupt_packet], given the values its two [random.randint] calls
    return when they are made: [pos_draw] for [randint(7, len - 1)] and
    [bit_draw] for [randint(0, 7)]. *)
Definition _corrupt_packet (pos_draw bit_draw : Z) (packet : bytes) : result bytes :=
  let packet_list := map byte_val packet in
  packet_list ←
    (if decide (len packet_list > 7) then
       let corrupt_pos := pos_draw in
       let corrupt_bit := bit_draw in
       old ← getitem packet_list corrupt_pos;
       mret (<[Z.to_nat corrupt_pos := Z.lxor old (Z.shiftl 1 corrupt_bit)]> packet_list)
     else mret packet_list);
  bytes_of_ints packet_list.

(** The draws [_corrupt_packet] can see on [packet]. *)
Definition draws_for (packet : bytes) (pos_draw bit_draw : Z) : Prop :=
  len packet > 7 -> randint 7 (len packet - 1) pos_draw ∧ randint 0 7 bit_draw.

Record t : Type := mk {
  loss_rate : R;
  corruption_rate : R;
  duplication_rate : R;
  delay_range : R * R;
  packets_sent : Z;
  packets_lost : Z;
  packets_corrupted : Z;
  packets_delayed : Z
}.

Definition init (loss_rate corruption_rate duplication_rate : R) (delay_range : R * R) : t :=
  {| loss_rate := loss_rate;
     corruption_rate := corruption_rate;
     duplication_rate := duplication_rate;
     delay_range := delay_range;
     packets_sent := 0;
     packets_lost := 0;
     packets_corrupted := 0;
     packets_delayed := 0 |}.

Definition set_counters (sent lost corrupted delayed : Z) (self : t) : t :=
  {| loss_rate := loss_rate self;
     corruption_rate := corruption_rate self;
     duplication_rate := duplication_rate self;
     delay_range := delay_range self;
     packets_sent := sent;
     packets_lost := lost;
     packets_corrupted := corrupted;
     packets_delayed := delayed |}.

(** The values the random calls of one [process_packet] return when they
    are made, in the order of the code: [random.random()] for the loss,
    the corruption and the duplication test, the two [random.randint] of
    [_corrupt_packet], and [random.uniform] for the delay. *)
Record draws : Type := mk_draws {
  loss_draw : R;
  corruption_draw : R;
  corrupt_pos_draw : Z;
  corrupt_bit_draw : Z;
  duplication_draw : R;
  delay_draw : R
}.

(** [random.random()] may return [v]. *)
Definition random_unit (v : R) : Prop := (0 <= v < 1)%R.

(** [random.uniform(a, b)] may return [v]. *)
Definition uniform (a b v : R) : Prop := (Rmin a b <= v <= Rmax a b)%R.

(** [process_packet]: the simulator afterwards, what it returns ([None] for
    a lost packet), and the seconds it slept in [time.sleep]. *)
Definition process_packet (d : draws) (packet : bytes) (self : t)
  : result (t * option bytes * R) :=
  let self := set_counters (packets_sent self + 1) (packets_lost self)
                           (packets_corrupted self) (packets_delayed self) self in
  if Rlt_dec (loss_draw d) (loss_rate self) then
    let self := set_counters (packets_sent self) (packets_lost self + 1)
                             (packets_corrupted self) (packets_delayed self) self in
    mret (self, None, 0%R)
  else
    '(self, packet) ←
      (if Rlt_dec (corruption_draw d) (corruption_rate self) then
         let self := set_counters (packets_sent self) (packets_lost self)
                                  (packets_corrupted self + 1) (packets_delayed self) self in
         packet ← _corrupt_packet (corrupt_pos_draw d) (corrupt_bit_draw d) packet;
         mret (self, packet)
       else mret (self, packet));
    let self := if Rlt_dec (duplication_draw d) (duplication_rate self) then self else self in
    let '(self, slept) :=
      if Rlt_dec 0 (snd (delay_range self)) then
        let delay := delay_draw d in
        if Rlt_dec 0 delay then
          (set_counters (packets_sent self) (packets_lost self)
                        (packets_corrupted self) (packets_delayed self + 1) self, delay)
        else (self, 0%R)
      else (self, 0%R) in
    mret (self, Some packet, slept).

(** The draws [process_packet] can see on [packet]. *)
Definition draws_ok (self : t) (packet : bytes) (d : draws) : Prop :=
  random_unit (loss_draw d) ∧ random_unit (corruption_draw d)
  ∧ random_unit (duplication_draw d)
  ∧ draws_for packet (corrupt_pos_draw d) (corrupt_bit_draw d)
  ∧ uniform (fst (delay_range self)) (snd (delay_range self)) (delay_draw d).

(** The packets of [calls] sent through the simulator one after the other,
    each with its draws; what came out of each call is collected in order. *)
Fixpoint run (calls : list (draws * bytes)) (self : t) : result (t * list (option bytes)) :=
  match calls with
  | [] => mret (self, [])
  | (d, packet) :: rest =>
      '(self', out, _) ← process_packet d packet self;
      '(final, outs) ← run rest self';
      mret (final, out :: outs)
  end.

End NetworkSimulator.

(** ** protocol.py: class Statistics *)

Module Statistics.

Record t : Type := mk {
  segments_sent : Z;
  segments_received : Z;
  segments_retransmitted : Z;
  packets_lost : Z;
  packets_corrupted : Z;
  acks_received : Z;
  timeouts : Z;
  total_bytes_sent : Z;
  total_bytes_received : Z
}.

Definition init : t := mk 0 0 0 0 0 0 0 0 0.

Definition record_send (size : Z) (s : t) : t :=
  mk (segments_sent s + 1) (segments_received s) (segments_retransmitted s)
     (packets_lost s) (packets_corrupted s) (acks_received s) (timeouts s)
     (total_bytes_sent s + size) (total_bytes_received s).

Definition record_ack (s : t) : t :=
  mk (segments_sent s) (segments_received s) (segments_retransmitted s)
     (packets_lost s) (packets_corrupted s) (acks_received s + 1) (timeouts s)
     (total_bytes_sent s) (total_bytes_received s).

Definition record_timeout (s : t) : t :=
  mk (segments_sent s) (segments_received s) (segments_retransmitted s)
     (packets_lost s) (packets_corrupted s) (acks_received s) (timeouts s + 1)
     (total_bytes_sent s) (total_bytes_received s).

Definition record_retransmission (s : t) : t :=
  mk (segments_sent s) (segments_received s) (segments_retransmitted s + 1)
     (packets_lost s) (packets_corrupted s) (acks_received s) (timeouts s)
     (total_bytes_sent s) (total_bytes_received s).

Definition record_receive (size : Z) (s : t) : t :=
  mk (segments_sent s) (segments_received s + 1) (segments_retransmitted s)
     (packets_lost s) (packets_corrupted s) (acks_received s) (timeouts s)
     (total_bytes_sent s) (total_bytes_received s + size).

(** One call on the counters. *)
Inductive call : Type :=
| RecordSend (size : Z)
| RecordReceive (size : Z)
| RecordAck
| RecordTimeout
| RecordRetransmission.

Definition run_call (c : call) (s : t) : t :=
  match c with
  | RecordSend size => record_send size s
  | RecordReceive size => record_receive size s
  | RecordAck => record_ack s
  | RecordTimeout => record_timeout s
  | RecordRetransmission => record_retransmission s
  end.

(** The calls of [cs] in order, first call first. *)
Definition run (cs : list call) (s : t) : t := fold_left (fun s c => run_call c s) cs s.

(** The sizes handed to [record_send], and to [record_receive], along [cs]. *)
Definition sent_sizes (cs : list call) : list Z :=
  flat_map (fun c => match c with RecordSend size => [size] | _ => [] end) cs.
Definition received_sizes (cs : list call) : list Z :=
  flat_map (fun c => match c with RecordReceive size => [size] | _ => [] end) cs.

(** How many calls of [cs] satisfy [which]. *)
Definition count_calls (which : call -> bool) (cs : list call) : Z :=
  Z.of_nat (length (List.filter which cs)).

End Statistics.

(** ** beardown_sender_student.py: class BeardownSender *)

Module BeardownSender.
Import PacketStructure.

(** The constructor is the source's own; [time.time()] is the argument
    [now] of each method that reads the clock. *)
Record t : Type := mk {
  data_buffer : bytes;
  current_offset : Z;
  total_size : Z;
  seq_manager : SequenceNumberManager.t;
  timeout_manager : TimeoutManager.t;
  current_packet : option bytes;
  packet_sent_time : option R;
  pending_ack : bool;
  current_data : bytes;
  stats : Statistics.t
}.

Definition init (timeout : R) : t :=
  {| data_buffer := [];
     current_offset := 0;
     total_size := 0;
     seq_manager := SequenceNumberManager.init 2;
     timeout_manager := TimeoutManager.init timeout;
     current_packet := None;
     packet_sent_time := None;
     pending_ack := false;
     current_data := [];
     stats := Statistics.init |}.

(** Modelled from the spec: the bodies of [load_data], [get_next_packet],
    [process_ack], [handle_timeout], [is_complete], [_extract_data_segment],
    [_create_data_packet] and [_should_retransmit] are missing from the
    source, which leaves each as a [pass] stub for the student to fill in.
    The definitions below follow section 4.5 of the specification (Sender
    Engine) and the step lists the source gives above each stub. *)
Definition load_data (data : bytes) (self : t) : t :=
  {| data_buffer := data;
     current_offset := 0;
     total_size := len data;
     seq_manager := SequenceNumberManager.reset (seq_manager self);
     timeout_manager := timeout_manager self;
     current_packet := current_packet self;
     packet_sent_time := packet_sent_time self;
     pending_ack := false;
     current_data := current_data self;
     stats := stats self |}.

(** Modelled from the spec: the outstanding packet has exceeded the
    current timeout. *)
Definition _should_retransmit (now : R) (self : t) : bool :=
  if pending_ack self then
    match packet_sent_time self with
    | None => false
    | Some sent =>
        let elapsed := (now - sent)%R in
        let timeout := TimeoutManager.get_timeout (timeout_manager self) in
        if Rlt_dec timeout elapsed then true else false
    end
  else false.

(** Modelled from the spec: the retransmission side effects: back off the
    timeout, restart the send clock, count the timeout. *)
Definition handle_timeout (now : R) (self : t) : t :=
  {| data_buffer := data_buffer self;
     current_offset := current_offset self;
     total_size := total_size self;
     seq_manager := seq_manager self;
     timeout_manager := TimeoutManager.on_retransmission (timeout_manager self);
     current_packet := current_packet self;
     packet_sent_time := Some now;
     pending_ack := pending_ack self;
     current_data := current_data self;
     stats := Statistics.record_retransmission (Statistics.record_timeout (stats self)) |}.

(** Modelled from the spec: slices up to 1000 bytes starting at the
    current offset. *)
Definition _extract_data_segment (self : t) : bytes :=
  let remaining := total_size self - current_offset self in
  let chunk_size := Z.min remaining MAX_PAYLOAD_SIZE in
  slice_to chunk_size (slice_from (current_offset self) (data_buffer self)).

(** Modelled from the spec: encodes a DATA packet with the current
    sequence number. *)
Definition _create_data_packet (data_chunk : bytes) (self : t) : result bytes :=
  create_packet (SequenceNumberManager.get_current (seq_manager self)) 0
                Flags.DATA data_chunk.

(** Modelled from the spec: [next_packet_to_send] of section 4.5. *)
Definition get_next_packet (now : R) (self : t) : result (t * option bytes) :=
  if _should_retransmit now self then
    let self := handle_timeout now self in
    mret (self, current_packet self)
  else if pending_ack self then mret (self, None)
  else if decide (current_offset self >= total_size self) then mret (self, None)
  else
    let data_segment := _extract_data_segment self in
    packet ← _create_data_packet data_segment self;
    mret ({| data_buffer := data_buffer self;
             current_offset := current_offset self;
             total_size := total_size self;
             seq_manager := seq_manager self;
             timeout_manager := timeout_manager self;
             current_packet := Some packet;
             packet_sent_time := Some now;
             pending_ack := true;
             current_data := data_segment;
             stats := Statistics.record_send (len packet) (stats self) |},
          Some packet).

(** Modelled from the spec: the timeout estimator fed with the round-trip
    time of the outstanding packet, when a send timestamp exists. *)
Definition feed_estimator (now : R) (self : t) : result TimeoutManager.t :=
  match packet_sent_time self with
  | Some sent =>
      match TimeoutManager.record_rtt (now - sent)%R (timeout_manager self) with
      | (tm, None) => Ok tm
      | (_, Some e) => Raise e
      end
  | None => Ok (timeout_manager self)
  end.

(** Modelled from the spec: the state after a matching ack. *)
Definition retire_segment (now : R) (self : t) : result t :=
  tm ← feed_estimator now self;
  sm ← SequenceNumberManager.increment (seq_manager self);
  mret {| data_buffer := data_buffer self;
          current_offset := current_offset self + len (current_data self);
          total_size := total_size self;
          seq_manager := sm;
          timeout_manager := tm;
          current_packet := current_packet self;
          packet_sent_time := packet_sent_time self;
          pending_ack := false;
          current_data := current_data self;
          stats := Statistics.record_ack (stats self) |}.

(** Modelled from the spec: [on_ack] of section 4.5; every failure is
    silent and leaves the state as it was. *)
Definition process_ack (now : R) (ack_packet : bytes) (self : t) : t * bool :=
  let '(is_valid, msg) := validate_packet ack_packet in
  if negb is_valid then (self, false)
  else
    let attempt :=
      '(seq_num, ack_num, flags, length, data, checksum) ← parse_packet ack_packet;
      if decide (Z.land flags Flags.ACK = 0) then mret (self, false)
      else
        expected_ack ←
          py_mod (SequenceNumberManager.get_current (seq_manager self) + 1)
                 (SequenceNumberManager.modulo (seq_manager self));
        if decide (ack_num = expected_ack) then
          self' ← retire_segment now self; mret (self', true)
        else mret (self, false) in
    match attempt with
    | Ok r => r
    | Raise _ => (self, false)
    end.

(** Modelled from the spec: offset >= total and no packet outstanding. *)
Definition is_complete (self : t) : bool :=
  bool_decide (current_offset self >= total_size self) && negb (pending_ack self).

(** One call of the driver on the sender. *)
Inductive call : Type :=
| GetNextPacket (now : R)
| ProcessAck (now : R) (ack_packet : bytes)
| HandleTimeout (now : R).

(** The state after [c] and the packet [c] hands to the channel, if any. *)
Definition run_call (c : call) (self : t) : result (t * option bytes) :=
  match c with
  | GetNextPacket now => get_next_packet now self
  | ProcessAck now ack_packet => mret (fst (process_ack now ack_packet self), None)
  | HandleTimeout now => mret (handle_timeout now self, None)
  end.

(** The calls of [cs] in order; the packets returned by [get_next_packet]
    are collected oldest first. *)
Fixpoint run (cs : list call) (self : t) : result (t * list bytes) :=
  match cs with
  | [] => mret (self, [])
  | c :: rest =>
      '(self', out) ← run_call c self;
      '(final, outs) ← run rest self';
      mret (final, from_option (fun p => [p]) [] out ++ outs)
  end.

(** The [k]-th segment of [data]: 1000 bytes from offset [1000 * k], or
    what is left of [data] there. *)
Definition segment (k : Z) (data : bytes) : bytes :=
  slice_to MAX_PAYLOAD_SIZE (slice_from (MAX_PAYLOAD_SIZE * k) data).

End BeardownSender.

(** ** The wire format of section 6 of the specification:
  [seq:1][ack:1][flags:1][length:2][checksum:2][payload] *)

Module Wire.

(** The byte of [packet] at offset [i], as a number. *)
Definition byte_at (packet : bytes) (i : nat) : Z := byte_val (nth i packet x00).

Definition seq_field (packet : bytes) : Z := byte_at packet 0.
Definition ack_field (packet : bytes) : Z := byte_at packet 1.
Definition flags_field (packet : bytes) : Z := byte_at packet 2.
Definition length_field (packet : bytes) : Z :=
  256 * byte_at packet 3 + byte_at packet 4.
Definition checksum_field (packet : bytes) : Z :=
  256 * byte_at packet 5 + byte_at packet 6.
Definition payload (packet : bytes) : bytes := drop 7 packet.

(** The seven header bytes for the given field values. *)
Definition header_bytes (seq_num ack_num flags length checksum : Z) : bytes :=
  [byte_of_Z (Z.land seq_num 0xFF); byte_of_Z (Z.land ack_num 0xFF);
   byte_of_Z (Z.land flags 0xFF);
   byte_of_Z (Z.shiftr length 8); byte_of_Z (Z.land length 255);
   byte_of_Z (Z.shiftr checksum 8); byte_of_Z (Z.land checksum 255)].

(** A truncated buffer. *)
Definition too_short (packet : bytes) : Prop := len packet < 7.

(** The bytes after the header are not as many as the length field says. *)
Definition length_mismatch (packet : bytes) : Prop :=
  7 <= len packet ∧ len (payload packet) ≠ length_field packet.

(** The bit [bit] of the byte at offset [pos] of [packet] flipped. *)
Definition flip_bit (pos bit : Z) (packet : bytes) : bytes :=
  alter (fun b => byte_of_Z (Z.lxor (byte_val b) (Z.shiftl 1 bit))) (Z.to_nat pos) packet.

(** The number of bits set in a byte-sized number. *)
Definition popcount8 (v : Z) : nat :=
  length (filter (fun i => Z.testbit v (Z.of_nat i) = true) (seq 0 8)).

(** The number of bit positions at which two buffers differ. *)
Fixpoint bit_distance (p q : bytes) : nat :=
  match p, q with
  | a :: p', b :: q' =>
      (popcount8 (Z.lxor (byte_val a) (byte_val b)) + bit_distance p' q')%nat
  | _, _ => 0%nat
  end.

(** [packet] with its two checksum bytes set to zero, as [validate_packet]
    builds it. *)
Definition checksum_zeroed (packet : bytes) : bytes :=
  take 5 packet ++ [x00; x00] ++ drop 7 packet.

(** The bytes at offsets [i] and [j] exchanged. *)
Definition swap_bytes (i j : nat) (packet : bytes) : bytes :=
  match packet !! i, packet !! j with
  | Some a, Some b => <[j:=a]> (<[i:=b]> packet)
  | _, _ => packet
  end.

End Wire.

(** ** The sender under its driver *)

Module Transfer.
Import BeardownSender.

(** [packet] is a DATA packet that carries segment [k] of [data]. *)
Definition carries (data packet : bytes) (k : Z) : Prop :=
  0 <= k ∧ MAX_PAYLOAD_SIZE * k < len data
  ∧ ∃ seq_num,
      PacketStructure.create_packet seq_num 0 Flags.DATA (segment k data) = Ok packet.

(** What holds of the sender throughout a transfer of [data]: the cursor
    sits on a segment boundary or past the end, the segment last built
    leads to a boundary or to the end, and the packet last built carries a
    segment of [data]. *)
Definition invariant (data : bytes) (self : t) : Prop :=
  data_buffer self = data ∧ total_size self = len data
  ∧ 0 <= current_offset self
  ∧ (current_offset self `mod` 1000 = 0 ∨ len data <= current_offset self)
  ∧ (len (current_data self) = 0 ∨ len (current_data self) = 1000
     ∨ len data <= current_offset self + len (current_data self))
  ∧ ∀ packet, current_packet self = Some packet -> ∃ k, carries data packet k.

(** The sender is about to build segment [k], or has none left, and every
    round trip it has measured took no time. *)
Definition ready (data : bytes) (k : Z) (self : t) : Prop :=
  data_buffer self = data ∧ total_size self = len data
  ∧ current_offset self = Z.min (1000 * k) (len data)
  ∧ pending_ack self = false
  ∧ SequenceNumberManager.modulo (seq_manager self) = 2
  ∧ SequenceNumberManager.seq_num (seq_manager self) = k `mod` 2
  ∧ Forall (fun rtt => rtt = 0%R) (TimeoutManager.rtt_samples (timeout_manager self)).

(** Modelled from the spec: the ack of section 4.6, a payload-free packet
    with the ACK flag that carries the sequence number the receiver
    expects next; the receiver in the source is a stub. *)
Definition ack_packet_for (ack_num : Z) : bytes :=
  match PacketStructure.create_packet 0 ack_num Flags.ACK [] with
  | Ok packet => packet
  | Raise _ => []
  end.

(** The driver loop on a channel without faults, for [rounds] segments
    from segment [k] on: get the next packet, hand the sender the ack. *)
Fixpoint fault_free_calls (rounds : nat) (k : Z) (now : R) : list call :=
  match rounds with
  | O => []
  | S rounds' =>
      GetNextPacket now :: ProcessAck now (ack_packet_for ((k + 1) `mod` 2))
      :: fault_free_calls rounds' (k + 1) now
  end.

End Transfer.

(** * Properties *)

(** ** Reference definitions, worded as the specification words them *)

Module Reference.

(** Pads input to even length with a trailing zero byte. *)
Definition pad_even (data : bytes) : bytes :=
  if Nat.even (length data) then data else data ++ [x00].

(** The 16-bit big-endian words of an even-length input. *)
Fixpoint be_words (data : bytes) : list Z :=
  match data with
  | hi :: lo :: rest => (256 * byte_val hi + byte_val lo) :: be_words rest
  | _ => []
  end.

Definition sum_of (ws : list Z) : Z := foldr Z.add 0 ws.

(** Repeatedly add the high 16 bits of the accumulator back into the low
    16 bits until no overflow remains. *)
Inductive end_around : Z -> Z -> Prop :=
| end_around_done acc :
    acc `div` 2 ^ 16 = 0 -> end_around acc acc
| end_around_fold acc final :
    acc `div` 2 ^ 16 ≠ 0 ->
    end_around (acc `mod` 2 ^ 16 + acc `div` 2 ^ 16) final ->
    end_around acc final.

(** The one's complement of a 16-bit value. *)
Definition complement16 (v : Z) : Z := 2 ^ 16 - 1 - v.

Definition checksum (data : bytes) (c : Z) : Prop :=
  ∃ folded, end_around (sum_of (be_words (pad_even data))) folded
            ∧ c = complement16 folded.

(** The [n] most recent of the samples [xs], which are oldest first. *)
Definition most_recent (n : nat) (xs : list R) : list R := drop (length xs - n) xs.

Definition total (xs : list R) : R := foldr Rplus 0%R xs.

Definition average (xs : list R) : R := (total xs / INR (length xs))%R.

(** The population standard deviation. *)
Definition population_stddev (xs : list R) : R :=
  sqrt (total (map (fun x => Rsqr (x - average xs)) xs) / INR (length xs)).

(** [v] clamped between [lo] and [hi]. *)
Definition clamp (lo hi v : R) : R := Rmax lo (Rmin hi v).

(** The square of the deviation of some sample of [xs] from their average
    is [2 ^ 1024] or more, beyond the range of a float. *)
Definition square_out_of_range (xs : list R) : Prop :=
  Exists (fun x => (2 ^ 1024 <= Rsqr (x - average xs))%R) xs.

End Reference.

(** ** Bytes and 16-bit fields *)

Section ByteFacts.

Lemma byte_val_range (b : byte) : 0 <= byte_val b < 256.
Proof.
  unfold byte_val. pose proof (Byte.to_N_bounded b). lia.
Qed.

Lemma byte_of_Z_val (b : byte) : byte_of_Z (byte_val b) = b.
Proof.
  unfold byte_of_Z, byte_val. rewrite N2Z.id, Byte.of_to_N. reflexivity.
Qed.

Lemma byte_val_of_Z (v : Z) : 0 <= v < 256 -> byte_val (byte_of_Z v) = v.
Proof.
  intros Hv. unfold byte_of_Z, byte_val.
  destruct (Byte.of_N (Z.to_N v)) as [b|] eqn:E.
  - apply Byte.to_of_N in E. lia.
  - apply Byte.of_N_None_iff in E. lia.
Qed.

Lemma shiftr_16 (s : Z) : Z.shiftr s 16 = s `div` 65536.
Proof. rewrite Z.shiftr_div_pow2 by lia. reflexivity. Qed.

Lemma land_FFFF (s : Z) : Z.land s 0xFFFF = s `mod` 65536.
Proof. change 0xFFFF with (Z.ones 16). rewrite Z.land_ones by lia. reflexivity. Qed.

Lemma land_FF (s : Z) : Z.land s 0xFF = s `mod` 256.
Proof. change 0xFF with (Z.ones 8). rewrite Z.land_ones by lia. reflexivity. Qed.

(** Two bytes side by side are the number [256 * hi + lo]. *)
Lemma lor_shiftl_8 (hi lo : Z) :
  0 <= lo < 256 -> Z.lor (Z.shiftl hi 8) lo = 256 * hi + lo.
Proof.
  intros Hlo. rewrite <- Z.add_nocarry_lor.
  - rewrite Z.shiftl_mul_pow2 by lia. lia.
  - apply Z.bits_inj'. intros n Hn. rewrite Z.land_spec, Z.bits_0.
    destruct (decide (n < 8)).
    + rewrite Z.shiftl_spec_low by lia. reflexivity.
    + rewrite (Z.bits_above_log2 lo n), andb_false_r; [reflexivity|lia|].
      destruct (decide (lo = 0)) as [->|]; [change (Z.log2 0) with 0; lia|].
      apply Z.lt_le_trans with 8; [|lia].
      apply Z.log2_lt_pow2; lia.
Qed.

Lemma unpack_H_val (hi lo : byte) : unpack_H hi lo = 256 * byte_val hi + byte_val lo.
Proof. unfold unpack_H. apply lor_shiftl_8, byte_val_range. Qed.

(** A 16-bit field survives [pack_H] followed by [unpack_H]. *)
Lemma unpack_pack_H (v : Z) :
  0 <= v <= 65535 ->
  unpack_H (byte_of_Z (Z.shiftr v 8)) (byte_of_Z (Z.land v 255)) = v.
Proof.
  intros Hv. rewrite unpack_H_val.
  rewrite Z.shiftr_div_pow2 by lia. change (2 ^ 8) with 256.
  rewrite (land_FF v).
  rewrite !byte_val_of_Z; lia.
Qed.

End ByteFacts.

(** ** The Internet checksum *)

Section ChecksumFacts.
Import InternetChecksum.

Lemma list_pair_ind {A} (P : list A -> Prop) :
  P [] -> (∀ a, P [a]) -> (∀ a b l, P l -> P (a :: b :: l)) -> ∀ l, P l.
Proof.
  intros Hnil Hone Hstep.
  assert (H : ∀ l, P l ∧ ∀ a, P (a :: l)).
  { induction l as [|b l [IH1 IH2]]; split; auto. }
  intros l. apply H.
Qed.

Lemma padded_pad_even (data : bytes) : padded data = Reference.pad_even data.
Proof.
  unfold padded, Reference.pad_even, len.
  destruct (Nat.even (length data)) eqn:E.
  - apply Nat.even_spec in E. destruct E as [k Hk].
    destruct (decide _) as [H|H]; [lia|reflexivity].
  - assert (Ho : Nat.odd (length data) = true).
    { rewrite <- Nat.negb_even, E. reflexivity. }
    apply Nat.odd_spec in Ho. destruct Ho as [k Hk].
    destruct (decide _) as [H|H]; [reflexivity|lia].
Qed.

Lemma pad_even_cons2 (a b : byte) (l : bytes) :
  Reference.pad_even (a :: b :: l) = a :: b :: Reference.pad_even l.
Proof.
  unfold Reference.pad_even. cbn [length].
  change (Nat.even (S (S (length l)))) with (Nat.even (length l)).
  destruct (Nat.even (length l)); reflexivity.
Qed.

(** The word loop never indexes past the padded input, and adds up the
    big-endian words. *)
Lemma sum_words_padded (data : bytes) :
  ∀ acc, sum_words (Reference.pad_even data) acc
         = Ok (acc + Reference.sum_of (Reference.be_words (Reference.pad_even data))).
Proof.
  induction data as [| a | a b l IH] using list_pair_ind; intros acc.
  - cbn. f_equal. lia.
  - cbn. f_equal. rewrite lor_shiftl_8 by (pose proof (byte_val_range "000"); lia).
    lia.
  - rewrite pad_even_cons2. cbn [sum_words Reference.be_words Reference.sum_of foldr].
    rewrite IH, lor_shiftl_8 by apply byte_val_range.
    f_equal. unfold Reference.sum_of. lia.
Qed.

Lemma sum_of_be_words_nonneg (data : bytes) :
  0 <= Reference.sum_of (Reference.be_words data).
Proof.
  induction data as [| a | a b l IH] using list_pair_ind; cbn; try lia.
  pose proof (byte_val_range a). pose proof (byte_val_range b).
  unfold Reference.sum_of in IH. lia.
Qed.

(** With [carry_fuel] turns allowed the bounded loop runs as the
    unbounded one does: it leaves by its own test. *)
Lemma add_carries_loop (fuel : nat) :
  ∀ s, 0 <= s ->
       s < 65536 ∨ (s = 65536 ∧ (1 <= fuel)%nat) ∨ s `div` 65536 + 1 <= Z.of_nat fuel ->
       carry_loop s (add_carries fuel s).
Proof.
  induction fuel as [|fuel IH]; intros s Hs Hfuel; cbn [add_carries];
    destruct (Z.gtb_spec (Z.shiftr s 16) 0) as [Hgt|Hle];
    try (apply carry_exit; lia); rewrite shiftr_16 in Hgt.
  - lia.
  - apply carry_turn; [rewrite shiftr_16; lia|].
    rewrite land_FFFF, shiftr_16. apply IH; lia.
Qed.

Lemma add_carries_exits (s : Z) :
  0 <= s -> carry_loop s (add_carries (carry_fuel s) s).
Proof.
  intros Hs. apply add_carries_loop; [lia|].
  unfold carry_fuel. rewrite shiftr_16. lia.
Qed.

(** What the carry loop computes: the residue of the sum modulo 65535,
    with 65535 standing for a non-zero multiple. *)
Lemma carry_loop_spec (s r : Z) :
  carry_loop s r -> 0 <= s ->
  0 <= r < 65536 ∧ r `mod` 65535 = s `mod` 65535 ∧ (r = 0 <-> s = 0).
Proof.
  induction 1 as [s Hexit | s r Hgt _ IH]; intros Hs.
  - rewrite shiftr_16 in Hexit. lia.
  - rewrite shiftr_16 in Hgt. rewrite land_FFFF, shiftr_16 in IH. lia.
Qed.

Lemma carry_loop_det (s r1 r2 : Z) :
  carry_loop s r1 -> carry_loop s r2 -> r1 = r2.
Proof.
  intros H1. revert r2.
  induction H1 as [s Hexit | s r Hgt _ IH]; intros r2 H2; inversion H2; subst;
    auto; contradiction.
Qed.

Lemma carry_loop_end_around (s r : Z) :
  carry_loop s r -> 0 <= s -> Reference.end_around s r.
Proof.
  induction 1 as [s Hexit | s r Hgt _ IH]; intros Hs.
  - rewrite shiftr_16 in Hexit. apply Reference.end_around_done.
    change (2 ^ 16) with 65536. lia.
  - rewrite shiftr_16 in Hgt. rewrite land_FFFF, shiftr_16 in IH.
    apply Reference.end_around_fold; change (2 ^ 16) with 65536; [lia|].
    apply IH. lia.
Qed.

Lemma end_around_det (s r1 r2 : Z) :
  Reference.end_around s r1 -> Reference.end_around s r2 -> r1 = r2.
Proof.
  intros H1. revert r2.
  induction H1 as [s Hexit | s r Hgt _ IH]; intros r2 H2; inversion H2; subst;
    auto; contradiction.
Qed.

Lemma land_lnot_FFFF (r : Z) : 0 <= r < 65536 -> Z.land (Z.lnot r) 0xFFFF = 65535 - r.
Proof. intros Hr. rewrite land_FFFF. unfold Z.lnot. lia. Qed.

(** [calculate] unfolded: the word sum, the carry loop, the complement. *)
Lemma calculate_unfold (data : bytes) :
  let s := Reference.sum_of (Reference.be_words (Reference.pad_even data)) in
  ∃ final, carry_loop s final ∧ calculate data = Ok (65535 - final)
           ∧ sum_words (padded data) 0 = Ok s.
Proof.
  intros s. pose proof (sum_of_be_words_nonneg (Reference.pad_even data)) as Hs.
  fold s in Hs. exists (add_carries (carry_fuel s) s).
  pose proof (add_carries_exits s Hs) as Hloop.
  pose proof (carry_loop_spec _ _ Hloop Hs) as (Hr & _).
  assert (Hsum : sum_words (padded data) 0 = Ok s).
  { rewrite padded_pad_even, sum_words_padded. reflexivity. }
  split; [exact Hloop|]. split; [|exact Hsum].
  unfold calculate. cbn zeta. rewrite Hsum. cbn.
  rewrite land_lnot_FFFF by exact Hr. reflexivity.
Qed.

(** C2: [InternetChecksum.calculate] returns on every byte sequence and
    never raises; its word loop and its carry loop both end by their own
    test; the value it returns is the one the reference definition fixes
    (pad to even length with a zero byte, sum the 16-bit big-endian words,
    fold the carries end-around, complement), the only such value, and it
    lies in [0, 2^16). *)
Theorem calculate_meets_reference (data : bytes) :
  ∃ c, calculate data = Ok c
       ∧ Reference.checksum data c
       ∧ (∀ c', Reference.checksum data c' -> c' = c)
       ∧ 0 <= c < 2 ^ 16
       ∧ ∃ sum_val final,
           sum_words (padded data) 0 = Ok sum_val
           ∧ carry_loop sum_val final
           ∧ c = Z.land (Z.lnot final) 0xFFFF.
Proof.
  destruct (calculate_unfold data) as (final & Hloop & Hcalc & Hsum).
  pose proof (sum_of_be_words_nonneg (Reference.pad_even data)) as Hs.
  pose proof (carry_loop_spec _ _ Hloop Hs) as (Hr & _).
  exists (65535 - final). split; [exact Hcalc|].
  assert (Href : Reference.checksum data (65535 - final)).
  { exists final. split; [apply carry_loop_end_around; assumption|reflexivity]. }
  split; [exact Href|]. split; [|split].
  - intros c' (f' & Hf' & ->). destruct Href as (f & Hf & Heq).
    unfold Reference.complement16 in *.
    rewrite (end_around_det _ _ _ Hf' Hf). lia.
  - change (2 ^ 16) with 65536. lia.
  - eexists _, final. split; [exact Hsum|]. split; [exact Hloop|].
    rewrite land_lnot_FFFF by exact Hr. reflexivity.
Qed.

End ChecksumFacts.

(** ** The packet codec *)

Section CodecFacts.
Import PacketStructure Wire.

Lemma len_cons {A} (a : A) (l : list A) : len (a :: l) = 1 + len l.
Proof. unfold len. cbn [length]. lia. Qed.

Lemma len_nil {A} : len (@nil A) = 0.
Proof. reflexivity. Qed.

Lemma len_app {A} (l k : list A) : len (l ++ k) = len l + len k.
Proof. unfold len. rewrite length_app. lia. Qed.

Lemma len_nonneg {A} (l : list A) : 0 <= len l.
Proof. unfold len. lia. Qed.

(** A buffer of at least seven bytes is a header followed by a payload. *)
Lemma header_split (packet : bytes) :
  7 <= len packet ->
  ∃ b0 b1 b2 b3 b4 b5 b6 rest, packet = b0 :: b1 :: b2 :: b3 :: b4 :: b5 :: b6 :: rest.
Proof.
  intros H.
  do 7 (destruct packet as [|? packet];
        [rewrite ?len_cons, len_nil in H; lia|]).
  eauto 10.
Qed.

Lemma parse_packet_short (packet : bytes) :
  len packet < 7 ->
  parse_packet packet
  = Raise (ValueError ("Packet too short: " +:+ pretty (len packet) +:+ " < "
                       +:+ pretty PACKET_HEADER_SIZE)).
Proof.
  intros H. unfold parse_packet.
  destruct (decide _) as [_|Hn]; [reflexivity|]. unfold PACKET_HEADER_SIZE in Hn. lia.
Qed.

Lemma parse_packet_long (b0 b1 b2 b3 b4 b5 b6 : byte) (rest : bytes) :
  parse_packet (b0 :: b1 :: b2 :: b3 :: b4 :: b5 :: b6 :: rest)
  = if decide (len rest ≠ unpack_H b3 b4) then
      Raise (ValueError ("Data length mismatch: expected " +:+ pretty (unpack_H b3 b4)
                         +:+ ", got " +:+ pretty (len rest)))
    else Ok (byte_val b0, byte_val b1, byte_val b2, unpack_H b3 b4, rest, unpack_H b5 b6).
Proof.
  unfold parse_packet.
  destruct (decide _) as [H|_].
  - unfold PACKET_HEADER_SIZE in H. rewrite !len_cons in H.
    pose proof (len_nonneg rest). lia.
  - reflexivity.
Qed.

Lemma validate_try_short (packet : bytes) :
  len packet < 7 ->
  validate_packet_try packet
  = Ok (false, "Packet too short: " +:+ pretty (len packet) +:+ " bytes").
Proof.
  intros H. unfold validate_packet_try.
  destruct (decide _) as [_|Hn]; [reflexivity|]. unfold PACKET_HEADER_SIZE in Hn. lia.
Qed.

Lemma validate_try_long (b0 b1 b2 b3 b4 b5 b6 : byte) (rest : bytes) :
  let packet := b0 :: b1 :: b2 :: b3 :: b4 :: b5 :: b6 :: rest in
  validate_packet_try packet
  = if decide (len packet ≠ PACKET_HEADER_SIZE + unpack_H b3 b4) then
      Ok (false, "Length mismatch: packet " +:+ pretty (len packet)
                 +:+ " vs expected " +:+ pretty (PACKET_HEADER_SIZE + unpack_H b3 b4))
    else
      calculated_checksum ←
        InternetChecksum.calculate (b0 :: b1 :: b2 :: b3 :: b4 :: x00 :: x00 :: rest);
      if decide (calculated_checksum ≠ unpack_H b5 b6) then
        Ok (false, "Checksum mismatch: expected " +:+ format_04x (unpack_H b5 b6)
                   +:+ ", got " +:+ format_04x calculated_checksum)
      else Ok (true, EmptyString).
Proof.
  intros packet. unfold validate_packet_try.
  destruct (decide (len packet < _)) as [H|_].
  - unfold PACKET_HEADER_SIZE, packet in H. rewrite !len_cons in H.
    pose proof (len_nonneg rest). lia.
  - reflexivity.
Qed.

End CodecFacts.

Section ParseValidateFacts.
Import PacketStructure Wire.

Lemma len_insert {A} (l : list A) (i : nat) (x : A) : len (<[i:=x]> l) = len l.
Proof. unfold len. rewrite length_insert. reflexivity. Qed.

Lemma short_or_split (packet : bytes) :
  len packet < 7
  ∨ ∃ b0 b1 b2 b3 b4 b5 b6 rest, packet = b0 :: b1 :: b2 :: b3 :: b4 :: b5 :: b6 :: rest.
Proof.
  destruct (decide (len packet < 7)) as [H|H]; [left; exact H|right].
  apply header_split. lia.
Qed.

Lemma len_cons7 (b0 b1 b2 b3 b4 b5 b6 : byte) (rest : bytes) :
  len (b0 :: b1 :: b2 :: b3 :: b4 :: b5 :: b6 :: rest) = 7 + len rest.
Proof. rewrite !len_cons. lia. Qed.

Lemma length_field_cons7 (b0 b1 b2 b3 b4 b5 b6 : byte) (rest : bytes) :
  length_field (b0 :: b1 :: b2 :: b3 :: b4 :: b5 :: b6 :: rest) = unpack_H b3 b4.
Proof. rewrite unpack_H_val. reflexivity. Qed.

Lemma checksum_field_cons7 (b0 b1 b2 b3 b4 b5 b6 : byte) (rest : bytes) :
  checksum_field (b0 :: b1 :: b2 :: b3 :: b4 :: b5 :: b6 :: rest) = unpack_H b5 b6.
Proof. rewrite unpack_H_val. reflexivity. Qed.

(** Malformed input in the sense of the two decode errors. *)
Lemma malformed_cons7 (b0 b1 b2 b3 b4 b5 b6 : byte) (rest : bytes) :
  let packet := b0 :: b1 :: b2 :: b3 :: b4 :: b5 :: b6 :: rest in
  too_short packet ∨ length_mismatch packet <-> len rest ≠ unpack_H b3 b4.
Proof.
  intros packet. unfold too_short, length_mismatch. subst packet.
  rewrite length_field_cons7, len_cons7. change (payload _) with rest.
  pose proof (len_nonneg rest). intuition lia.
Qed.

Lemma parse_packet_fails_iff (packet : bytes) :
  is_ok (parse_packet packet) = false <-> too_short packet ∨ length_mismatch packet.
Proof.
  destruct (short_or_split packet) as [H | (b0&b1&b2&b3&b4&b5&b6&rest&->)].
  - rewrite parse_packet_short by exact H. split; [left; exact H|reflexivity].
  - rewrite malformed_cons7, parse_packet_long.
    destruct (decide _) as [Hm|Hm]; cbn [is_ok]; split; intros;
      try congruence; contradiction.
Qed.

Lemma parse_packet_raise_is_value_error (packet : bytes) (e : exn) :
  parse_packet packet = Raise e -> ∃ msg, e = ValueError msg.
Proof.
  destruct (short_or_split packet) as [H | (b0&b1&b2&b3&b4&b5&b6&rest&->)].
  - rewrite parse_packet_short by exact H. intros [= <-]. eauto.
  - rewrite parse_packet_long. destruct (decide _); [|discriminate].
    intros [= <-]. eauto.
Qed.

(** C3: [parse_packet] raises exactly on a buffer of fewer than 7 bytes
    (too short) and on a buffer whose bytes after the 7-byte header are not
    as many as its 2-byte length field declares (length mismatch); on every
    other input it returns the fields as the wire format lays them out. It
    never looks at the checksum: overwriting the two checksum bytes changes
    neither whether it succeeds nor any other field it returns, and there
    is a buffer that [validate_packet] rejects for its checksum and
    [parse_packet] still parses. *)
Theorem parse_packet_spec (packet : bytes) :
  (is_ok (parse_packet packet) = false <-> too_short packet ∨ length_mismatch packet)
  ∧ match parse_packet packet with
    | Ok (seq_num, ack_num, flags, length, data, checksum) =>
        7 <= len packet
        ∧ seq_num = seq_field packet ∧ ack_num = ack_field packet
        ∧ flags = flags_field packet ∧ length = length_field packet
        ∧ data = payload packet ∧ checksum = checksum_field packet
        ∧ len data = length
    | Raise e =>
        (too_short packet
         ∧ e = ValueError ("Packet too short: " +:+ pretty (len packet) +:+ " < 7"))
        ∨ (length_mismatch packet
           ∧ e = ValueError ("Data length mismatch: expected "
                             +:+ pretty (length_field packet) +:+ ", got "
                             +:+ pretty (len (payload packet))))
    end
  ∧ (∀ c5 c6 : byte,
       let packet' := <[5%nat:=c5]> (<[6%nat:=c6]> packet) in
       match parse_packet packet, parse_packet packet' with
       | Ok (s, a, f, l, d, _), Ok (s', a', f', l', d', c') =>
           (s', a', f', l', d') = (s, a, f, l, d) ∧ c' = unpack_H c5 c6
       | Raise e, Raise e' => e' = e
       | _, _ => False
       end)
  ∧ ∃ bad, fst (validate_packet bad) = false
           ∧ snd (validate_packet bad) = "Checksum mismatch: expected 4b2d, got 8f4a"
           ∧ is_ok (parse_packet bad) = true.
Proof.
  split; [apply parse_packet_fails_iff|]. split; [|split].
  - destruct (short_or_split packet) as [H | (b0&b1&b2&b3&b4&b5&b6&rest&->)].
    + rewrite parse_packet_short by exact H. left. split; [exact H|reflexivity].
    + rewrite parse_packet_long. destruct (decide _) as [Hm|Hm].
      * right. split.
        -- destruct (proj2 (malformed_cons7 b0 b1 b2 b3 b4 b5 b6 rest) Hm)
             as [Hs|Hl]; [|exact Hl].
           unfold too_short in Hs. rewrite len_cons7 in Hs.
           pose proof (len_nonneg rest). lia.
        -- rewrite length_field_cons7. reflexivity.
      * rewrite len_cons7, length_field_cons7, checksum_field_cons7.
        pose proof (len_nonneg rest).
        repeat split; try reflexivity; [lia|]. change (payload _) with rest.
        destruct (decide (len rest = unpack_H b3 b4)); [assumption|contradiction].
  - intros c5 c6 packet'.
    destruct (short_or_split packet) as [H | (b0&b1&b2&b3&b4&b5&b6&rest&->)].
    + subst packet'.
      rewrite (parse_packet_short packet H), parse_packet_short
        by (rewrite !len_insert; exact H).
      rewrite !len_insert. reflexivity.
    + change packet' with (b0 :: b1 :: b2 :: b3 :: b4 :: c5 :: c6 :: rest).
      rewrite !parse_packet_long. destruct (decide _); auto.
  - exists ["000"; "000"; "008"; "000"; "003"; "K"; "-"; "H"; "e"; "m"]%byte.
    vm_compute. auto.
Qed.

Lemma validate_packet_try_ok (packet : bytes) :
  ∃ r, validate_packet_try packet = Ok r.
Proof.
  destruct (short_or_split packet) as [H | (b0&b1&b2&b3&b4&b5&b6&rest&->)].
  - rewrite validate_try_short by exact H. eauto.
  - rewrite validate_try_long. destruct (decide _); [eauto|].
    destruct (calculate_unfold (b0 :: b1 :: b2 :: b3 :: b4 :: x00 :: x00 :: rest))
      as (final & _ & -> & _).
    cbn. destruct (decide _); eauto.
Qed.

Lemma validate_true_parse_ok (packet : bytes) :
  fst (validate_packet packet) = true -> is_ok (parse_packet packet) = true.
Proof.
  unfold validate_packet.
  destruct (short_or_split packet) as [H | (b0&b1&b2&b3&b4&b5&b6&rest&->)].
  - rewrite validate_try_short by exact H. cbn. discriminate.
  - rewrite validate_try_long, parse_packet_long, len_cons7.
    unfold PACKET_HEADER_SIZE.
    destruct (decide (7 + len rest ≠ _)) as [Hm|Hm]; [cbn; discriminate|].
    intros _. destruct (decide (len rest ≠ _)) as [Hm'|Hm']; [lia|reflexivity].
Qed.

(** C4 as the code has it: [validate_packet] never raises. Its [try] block
    itself completes on every byte sequence, so neither [except] clause is
    ever taken, and a truncated or length-mismatched buffer comes back as
    [(False, reason)]. [parse_packet] reports the same two conditions by
    raising [ValueError], and raises on nothing else; a buffer that
    [validate_packet] accepted is parsed without an exception. *)
Theorem malformed_input_reporting (packet : bytes) :
  (∃ r, validate_packet_try packet = Ok r ∧ validate_packet packet = r)
  ∧ (too_short packet ->
     validate_packet packet
     = (false, "Packet too short: " +:+ pretty (len packet) +:+ " bytes"))
  ∧ (length_mismatch packet ->
     validate_packet packet
     = (false, "Length mismatch: packet " +:+ pretty (len packet)
               +:+ " vs expected " +:+ pretty (7 + length_field packet)))
  ∧ ((∃ msg, parse_packet packet = Raise (ValueError msg))
     <-> too_short packet ∨ length_mismatch packet)
  ∧ (fst (validate_packet packet) = true -> is_ok (parse_packet packet) = true).
Proof.
  split; [|split; [|split; [|split]]].
  - destruct (validate_packet_try_ok packet) as [r Hr]. exists r.
    unfold validate_packet. rewrite Hr. auto.
  - intros H. unfold validate_packet. rewrite validate_try_short by exact H.
    reflexivity.
  - intros [H7 Hm].
    destruct (header_split packet H7) as (b0&b1&b2&b3&b4&b5&b6&rest&->).
    unfold validate_packet. rewrite validate_try_long.
    rewrite length_field_cons7 in *. change (payload _) with rest in Hm.
    rewrite len_cons7. unfold PACKET_HEADER_SIZE.
    destruct (decide _) as [_|Hn]; [reflexivity|lia].
  - rewrite <- parse_packet_fails_iff.
    destruct (parse_packet packet) as [r|e] eqn:E; cbn.
    + split; [intros [msg Hmsg]; discriminate|discriminate].
    + split; [reflexivity|]. intros _.
      destruct (parse_packet_raise_is_value_error packet e E) as [msg ->]. eauto.
  - apply validate_true_parse_ok.
Qed.

(** C4 as stated fails: decoding a truncated buffer, and decoding a buffer
    whose length field disagrees with its payload, each raise [ValueError]
    to the caller. *)
Lemma parse_packet_raises_on_malformed :
  parse_packet [] = Raise (ValueError "Packet too short: 0 < 7")
  ∧ parse_packet ["000"; "001"; "002"; "000"; "003"; "000"; "000"]%byte
    = Raise (ValueError "Data length mismatch: expected 3, got 0").
Proof. split; vm_compute; reflexivity. Qed.

End ParseValidateFacts.

(** ** Single-bit corruption and the checksum *)

Section BitFlipFacts.
Import InternetChecksum PacketStructure Wire.

(** Flipping one of the eight bits of a byte gives a byte again, another
    one, at bit distance one. *)
Lemma flip_byte_value (v bit : Z) :
  0 <= v < 256 -> 0 <= bit <= 7 ->
  let v' := Z.lxor v (Z.shiftl 1 bit) in
  0 <= v' < 256 ∧ v' ≠ v ∧ popcount8 (Z.lxor v v') = 1%nat.
Proof.
  intros Hv Hbit.
  assert (Hall : Forall (fun v => Forall (fun bit =>
                   0 <= Z.lxor v (Z.shiftl 1 bit) < 256
                   ∧ Z.lxor v (Z.shiftl 1 bit) ≠ v
                   ∧ popcount8 (Z.lxor v (Z.lxor v (Z.shiftl 1 bit))) = 1%nat)
                 (seqZ 0 8)) (seqZ 0 256)).
  { apply (bool_decide_eq_true_1 _). vm_compute. reflexivity. }
  rewrite Forall_forall in Hall.
  specialize (Hall v). rewrite elem_of_seqZ in Hall.
  specialize (Hall ltac:(lia)). rewrite Forall_forall in Hall.
  apply Hall. rewrite elem_of_seqZ. lia.
Qed.

Local Abbreviation word_sum l :=
  (Reference.sum_of (Reference.be_words (Reference.pad_even l))).

(** Replacing the byte at offset [i] moves the word sum by the change of
    that byte, weighted 256 at an even offset and 1 at an odd one. *)
Lemma word_sum_insert (l : bytes) :
  ∀ (i : nat) (b b' : byte),
    l !! i = Some b ->
    word_sum (<[i:=b']> l)
    = word_sum l + (if Nat.even i then 256 else 1) * (byte_val b' - byte_val b).
Proof.
  induction l as [| a | a c l IH] using list_pair_ind; intros i b b' Hi.
  - discriminate.
  - destruct i as [|i]; [|discriminate]. injection Hi as ->. cbn. lia.
  - destruct i as [|[|i]].
    + injection Hi as ->. change (<[0%nat:=b']> (b :: c :: l)) with (b' :: c :: l).
      rewrite !pad_even_cons2. cbn. lia.
    + injection Hi as ->. change (<[1%nat:=b']> (a :: b :: l)) with (a :: b' :: l).
      rewrite !pad_even_cons2. cbn. lia.
    + change (<[S (S i):=b']> (a :: c :: l)) with (a :: c :: <[i:=b']> l).
      rewrite !pad_even_cons2.
      cbn [Reference.be_words Reference.sum_of foldr].
      change (Nat.even (S (S i))) with (Nat.even i).
      cbn in Hi. specialize (IH i b b' Hi). unfold Reference.sum_of in IH.
      rewrite IH. lia.
Qed.

Lemma alter_as_insert {A} (f : A -> A) (l : list A) (i : nat) (x : A) :
  l !! i = Some x -> alter f i l = <[i:=f x]> l.
Proof.
  intros Hi. rewrite list_insert_alter. apply list_alter_ext; [|reflexivity].
  intros y Hy. congruence.
Qed.

Lemma len_flip_bit (pos bit : Z) (l : bytes) : len (flip_bit pos bit l) = len l.
Proof. unfold flip_bit, len. rewrite length_alter. reflexivity. Qed.

Lemma flip_bit_cons7 (pos bit : Z) (b0 b1 b2 b3 b4 b5 b6 : byte) (rest : bytes) :
  7 <= pos ->
  flip_bit pos bit (b0 :: b1 :: b2 :: b3 :: b4 :: b5 :: b6 :: rest)
  = b0 :: b1 :: b2 :: b3 :: b4 :: b5 :: b6 :: flip_bit (pos - 7) bit rest.
Proof.
  intros Hpos. unfold flip_bit.
  replace (Z.to_nat pos) with (7 + Z.to_nat (pos - 7))%nat by lia.
  reflexivity.
Qed.

(** The checksum tells any buffer from the same buffer with one bit
    flipped. *)
Lemma calculate_flip_bit (l : bytes) (pos bit : Z) :
  0 <= pos < len l -> 0 <= bit <= 7 ->
  calculate (flip_bit pos bit l) ≠ calculate l.
Proof.
  intros Hpos Hbit.
  destruct (lookup_lt_is_Some_2 l (Z.to_nat pos)) as [b Hb]; [unfold len in Hpos; lia|].
  unfold flip_bit. rewrite (alter_as_insert _ _ _ _ Hb).
  pose proof (flip_byte_value (byte_val b) bit (byte_val_range b) Hbit) as (Hr & Hne & _).
  set (b' := byte_of_Z (Z.lxor (byte_val b) (Z.shiftl 1 bit))).
  assert (Hb' : byte_val b' = Z.lxor (byte_val b) (Z.shiftl 1 bit))
    by (apply byte_val_of_Z; exact Hr).
  pose proof (word_sum_insert l _ b b' Hb) as Hsum.
  destruct (calculate_unfold (<[Z.to_nat pos:=b']> l)) as (f' & Hloop' & -> & _).
  destruct (calculate_unfold l) as (f & Hloop & -> & _).
  apply carry_loop_spec in Hloop' as (Hf' & Hmod' & _);
    [|apply sum_of_be_words_nonneg].
  apply carry_loop_spec in Hloop as (Hf & Hmod & _);
    [|apply sum_of_be_words_nonneg].
  intros Heq. injection Heq as Heq.
  pose proof (byte_val_range b).
  rewrite Hsum in Hmod'. rewrite Hb' in *.
  destruct (Nat.even (Z.to_nat pos)); lia.
Qed.

Lemma bit_distance_refl (l : bytes) : bit_distance l l = 0%nat.
Proof.
  induction l as [|a l IH]; [reflexivity|]. cbn [bit_distance].
  rewrite IH, Z.lxor_nilpotent. reflexivity.
Qed.

(** [flip_bit] within the buffer changes one bit and no more. *)
Lemma bit_distance_flip_bit (l : bytes) :
  ∀ pos bit, 0 <= pos < len l -> 0 <= bit <= 7 ->
             bit_distance l (flip_bit pos bit l) = 1%nat.
Proof.
  unfold flip_bit. induction l as [|a l IH]; intros pos bit Hpos Hbit.
  - unfold len in Hpos. cbn in Hpos. lia.
  - rewrite len_cons in Hpos. destruct (decide (pos = 0)) as [->|Hne].
    + change (alter ?f (Z.to_nat 0) (a :: l)) with (f a :: l). cbn [bit_distance].
      pose proof (flip_byte_value (byte_val a) bit (byte_val_range a) Hbit)
        as (Hr & _ & Hpop).
      rewrite byte_val_of_Z by exact Hr. rewrite Hpop, bit_distance_refl. reflexivity.
    + replace (Z.to_nat pos) with (S (Z.to_nat (pos - 1))) by lia.
      change (alter ?f (S ?n) (a :: l)) with (a :: alter f n l). cbn [bit_distance].
      rewrite IH by lia. rewrite Z.lxor_nilpotent. reflexivity.
Qed.

End BitFlipFacts.

Section RoundTripFacts.
Import InternetChecksum PacketStructure Wire.

Lemma calculate_ok (data : bytes) : ∃ c, calculate data = Ok c ∧ 0 <= c < 65536.
Proof.
  destruct (calculate_unfold data) as (final & Hloop & Hcalc & _).
  apply carry_loop_spec in Hloop as (Hr & _); [|apply sum_of_be_words_nonneg].
  exists (65535 - final). split; [exact Hcalc|lia].
Qed.

Lemma pack_B_ok (v : Z) : 0 <= v <= 255 -> pack_B v = Ok [byte_of_Z v].
Proof.
  intros Hv. unfold pack_B.
  destruct (Z.leb_spec 0 v), (Z.leb_spec v 255); try lia. reflexivity.
Qed.

Lemma pack_H_ok (v : Z) :
  0 <= v <= 65535 ->
  pack_H v = Ok [byte_of_Z (Z.shiftr v 8); byte_of_Z (Z.land v 255)].
Proof.
  intros Hv. unfold pack_H.
  destruct (Z.leb_spec 0 v), (Z.leb_spec v 65535); try lia. reflexivity.
Qed.

Lemma pack_header_ok (seq_num ack_num flags length checksum : Z) :
  0 <= length <= 65535 -> 0 <= checksum <= 65535 ->
  pack_BBBHH (Z.land seq_num 0xFF) (Z.land ack_num 0xFF) (Z.land flags 0xFF)
             length checksum
  = Ok (header_bytes seq_num ack_num flags length checksum).
Proof.
  intros Hl Hc. unfold pack_BBBHH.
  rewrite !pack_B_ok by (rewrite land_FF; lia).
  rewrite !pack_H_ok by assumption. reflexivity.
Qed.

(** [create_packet] on a payload of at most 1000 bytes: the header with
    the checksum of the packet that has a zero checksum field, then the
    payload. *)
Lemma create_packet_ok (seq_num ack_num flags : Z) (data : bytes) :
  len data <= 1000 ->
  ∃ checksum,
    calculate (header_bytes seq_num ack_num flags (len data) 0 ++ data) = Ok checksum
    ∧ 0 <= checksum < 65536
    ∧ create_packet seq_num ack_num flags data
      = Ok (header_bytes seq_num ack_num flags (len data) checksum ++ data).
Proof.
  intros Hlen. pose proof (len_nonneg data) as Hnn.
  destruct (calculate_ok (header_bytes seq_num ack_num flags (len data) 0 ++ data))
    as (checksum & Hcalc & Hrange).
  exists checksum. split; [exact Hcalc|]. split; [exact Hrange|].
  unfold create_packet, MAX_PAYLOAD_SIZE.
  destruct (decide _) as [Hbig|_]; [lia|].
  rewrite pack_header_ok by lia. cbn [mbind result_bind].
  rewrite Hcalc. cbn [mbind result_bind].
  rewrite pack_header_ok by lia. reflexivity.
Qed.

(** [validate_packet] on an encoded packet, and on it with one payload
    bit flipped. *)
Lemma validate_encoded (seq_num ack_num flags checksum : Z) (data : bytes) :
  len data <= 1000 ->
  calculate (header_bytes seq_num ack_num flags (len data) 0 ++ data) = Ok checksum ->
  0 <= checksum < 65536 ->
  let packet := header_bytes seq_num ack_num flags (len data) checksum ++ data in
  validate_packet packet = (true, EmptyString)
  ∧ ∀ pos bit, 7 <= pos < len packet -> 0 <= bit <= 7 ->
               fst (validate_packet (flip_bit pos bit packet)) = false.
Proof.
  intros Hlen Hcalc Hrange packet. pose proof (len_nonneg data) as Hnn.
  assert (Hl : unpack_H (byte_of_Z (Z.shiftr (len data) 8))
                        (byte_of_Z (Z.land (len data) 255)) = len data)
    by (apply unpack_pack_H; lia).
  assert (Hc : unpack_H (byte_of_Z (Z.shiftr checksum 8))
                        (byte_of_Z (Z.land checksum 255)) = checksum)
    by (apply unpack_pack_H; lia).
  split.
  - unfold validate_packet, packet, header_bytes. cbn [app].
    rewrite validate_try_long, len_cons7, Hl, Hc. unfold PACKET_HEADER_SIZE.
    destruct (decide _) as [Hbad|_]; [lia|].
    change (calculate _) with
      (calculate (header_bytes seq_num ack_num flags (len data) 0 ++ data)).
    rewrite Hcalc. cbn [mbind result_bind].
    destruct (decide _) as [Hbad|_]; [congruence|reflexivity].
  - intros pos bit Hpos Hbit. unfold packet, header_bytes in *. cbn [app] in *.
    rewrite len_cons7 in Hpos.
    rewrite flip_bit_cons7 by lia. unfold validate_packet.
    rewrite validate_try_long, len_cons7, len_flip_bit, Hl, Hc.
    unfold PACKET_HEADER_SIZE.
    destruct (decide _) as [Hbad|_]; [reflexivity|].
    pose proof (calculate_flip_bit
                  (header_bytes seq_num ack_num flags (len data) 0 ++ data) pos bit)
      as Hdiff.
    unfold header_bytes in Hdiff. cbn [app] in Hdiff.
    rewrite len_cons7, flip_bit_cons7 in Hdiff by lia.
    specialize (Hdiff ltac:(lia) Hbit).
    change (byte_of_Z (Z.shiftr 0 8)) with x00 in *.
    change (byte_of_Z (Z.land 0 255)) with x00 in *.
    unfold header_bytes in Hcalc. cbn [app] in Hcalc.
    change (byte_of_Z (Z.shiftr 0 8)) with x00 in Hcalc.
    change (byte_of_Z (Z.land 0 255)) with x00 in Hcalc.
    rewrite Hcalc in Hdiff.
    match type of Hdiff with
    | calculate ?l ≠ _ => destruct (calculate_ok l) as (c' & Hc' & _)
    end.
    rewrite Hc' in Hdiff |- *. cbn [mbind result_bind].
    destruct (decide _) as [_|Heq]; [reflexivity|].
    exfalso. apply Hdiff. f_equal. destruct (decide (c' = checksum)); tauto.
Qed.

(** C1: for every choice of header fields and every payload [B] of at
    most 1000 bytes, [create_packet] returns a packet that
    [validate_packet] accepts with the empty reason; and flipping any one
    bit of that packet at a byte offset from 7 on (past the checksum
    field, in the payload), which changes exactly one bit of the buffer,
    gives a buffer that [validate_packet] rejects. *)
Theorem checksum_round_trip (seq_num ack_num flags : Z) (B : bytes) :
  len B <= 1000 ->
  ∃ packet,
    create_packet seq_num ack_num flags B = Ok packet
    ∧ validate_packet packet = (true, EmptyString)
    ∧ ∀ pos bit, 7 <= pos < len packet -> 0 <= bit <= 7 ->
                 bit_distance packet (flip_bit pos bit packet) = 1%nat
                 ∧ fst (validate_packet (flip_bit pos bit packet)) = false.
Proof.
  intros Hlen.
  destruct (create_packet_ok seq_num ack_num flags B Hlen)
    as (checksum & Hcalc & Hrange & Hcreate).
  destruct (validate_encoded seq_num ack_num flags checksum B Hlen Hcalc Hrange)
    as (Hvalid & Hflip).
  eexists. split; [exact Hcreate|]. split; [exact Hvalid|].
  intros pos bit Hpos Hbit. split; [|apply Hflip; assumption].
  apply bit_distance_flip_bit; lia.
Qed.

Lemma checksum_round_trip_witness :
  len ["H"; "e"; "l"]%byte <= 1000
  ∧ ∃ packet,
      create_packet 0 0 Flags.DATA ["H"; "e"; "l"]%byte = Ok packet
      ∧ validate_packet packet = (true, EmptyString)
      ∧ ∀ pos bit, 7 <= pos < len packet -> 0 <= bit <= 7 ->
                   bit_distance packet (flip_bit pos bit packet) = 1%nat
                   ∧ fst (validate_packet (flip_bit pos bit packet)) = false.
Proof.
  split; [vm_compute; discriminate|].
  apply (checksum_round_trip 0 0 Flags.DATA ["H"; "e"; "l"]%byte).
  vm_compute. discriminate.
Defined.

End RoundTripFacts.

(** ** The sequence number manager *)

Section SequenceFacts.
Import SequenceNumberManager.

(** A stop-and-wait manager keeps its modulo and holds 0 or 1. *)
Lemma reachable_two_inv (self : t) :
  reachable 2 self -> modulo self = 2 ∧ (seq_num self = 0 ∨ seq_num self = 1).
Proof.
  induction 1 as [| self self' _ [Hm Hs] Hinc | self _ [Hm Hs]].
  - cbn. auto.
  - unfold increment, py_mod in Hinc. rewrite Hm in Hinc.
    destruct (decide (2 = 0)) as [|_]; [lia|].
    cbn in Hinc. injection Hinc as <-. cbn. split; [reflexivity|].
    destruct Hs as [-> | ->]; cbn; auto.
  - cbn. auto.
Qed.

(** C5: with [modulo = 2], in every state reached from the initial one by
    [increment] and [reset], and for a received value of 0 or 1, exactly
    one of [is_expected] and [is_duplicate] holds, neither call raising:
    the current value and the previous value are the two distinct members
    of the set of 0 and 1. *)
Theorem alternating_bit_partition (self : t) (received : Z) :
  reachable 2 self -> received = 0 ∨ received = 1 ->
  ∃ prev dup,
    py_mod (get_current self - 1) (modulo self) = Ok prev
    ∧ is_duplicate self received = Ok dup
    ∧ xorb (is_expected self received) dup = true
    ∧ (is_expected self received = true <-> received = get_current self)
    ∧ (dup = true <-> received = prev)
    ∧ prev ≠ get_current self
    ∧ (get_current self = 0 ∧ prev = 1 ∨ get_current self = 1 ∧ prev = 0).
Proof.
  intros Hreach Hrecv. destruct (reachable_two_inv self Hreach) as [Hm Hs].
  unfold is_duplicate, is_expected, get_current, py_mod. rewrite Hm.
  destruct (decide (2 = 0)) as [|_]; [lia|].
  exists ((seq_num self - 1) `mod` 2), (bool_decide (received = (seq_num self - 1) `mod` 2)).
  split; [reflexivity|]. split; [reflexivity|].
  rewrite !bool_decide_eq_true.
  destruct Hs as [-> | ->], Hrecv as [-> | ->]; cbn; intuition lia.
Qed.

Lemma alternating_bit_partition_witness :
  reachable 2 (mk 2 1) ∧ (1 = 0 ∨ 1 = 1)
  ∧ ∃ prev dup,
      py_mod (get_current (mk 2 1) - 1) (modulo (mk 2 1)) = Ok prev
      ∧ is_duplicate (mk 2 1) 1 = Ok dup
      ∧ xorb (is_expected (mk 2 1) 1) dup = true
      ∧ (is_expected (mk 2 1) 1 = true <-> 1 = get_current (mk 2 1))
      ∧ (dup = true <-> 1 = prev)
      ∧ prev ≠ get_current (mk 2 1)
      ∧ (get_current (mk 2 1) = 0 ∧ prev = 1 ∨ get_current (mk 2 1) = 1 ∧ prev = 0).
Proof.
  assert (Hreach : reachable 2 (mk 2 1)).
  { apply (reach_increment 2 (init 2)); [apply reach_init|reflexivity]. }
  split; [exact Hreach|]. split; [right; reflexivity|].
  apply (alternating_bit_partition (mk 2 1) 1 Hreach). right. reflexivity.
Defined.

End SequenceFacts.

(** ** The timeout manager *)

Section TimeoutFacts.
Import TimeoutManager.
Local Open Scope R_scope.

Lemma py_min_Rmin (a b : R) : py_min a b = Rmin a b.
Proof. unfold py_min, Rmin. destruct (Rlt_dec b a), (Rle_dec a b); lra. Qed.

Lemma py_max_Rmax (a b : R) : py_max a b = Rmax a b.
Proof. unfold py_max, Rmax. destruct (Rlt_dec a b), (Rle_dec a b); lra. Qed.

Lemma fold_left_Rplus (xs : list R) : ∀ a, fold_left Rplus xs a = a + Reference.total xs.
Proof.
  induction xs as [|x xs IH]; intros a; cbn.
  - lra.
  - rewrite IH. unfold Reference.total. lra.
Qed.

Lemma py_sum_total (xs : list R) : py_sum xs = Reference.total xs.
Proof. unfold py_sum. rewrite fold_left_Rplus. lra. Qed.

Lemma code_average (xs : list R) :
  py_sum xs / IZR (len xs) = Reference.average xs.
Proof.
  unfold Reference.average, len. rewrite py_sum_total, <- INR_IZR_INZ. reflexivity.
Qed.

Lemma total_constant (r : R) (xs : list R) :
  Forall (fun x => x = r) xs -> Reference.total xs = INR (length xs) * r.
Proof.
  induction 1 as [|x xs -> _ IH].
  - cbn. lra.
  - cbn [length]. rewrite S_INR. unfold Reference.total in *. cbn [foldr].
    rewrite IH. lra.
Qed.

(** The sum of the squares when none of them leaves the range of a float. *)
Lemma sum_squared_deviations_ok (xs : list R) (avg : R) :
  ∀ acc,
    Forall (fun x => (x - avg) ^ 2 < 2 ^ 1024) xs ->
    sum_squared_deviations xs avg acc
    = Ok (acc + Reference.total (map (fun x => (x - avg) ^ 2) xs)).
Proof.
  induction xs as [|x xs IH]; intros acc Hall; cbn [sum_squared_deviations map].
  - f_equal. cbn. lra.
  - inversion Hall as [|? ? Hx Hxs]; subst. unfold squared_deviation.
    destruct (Rle_dec _ _) as [Hbig|_]; [lra|].
    cbn [mbind result_bind]. rewrite IH by exact Hxs.
    f_equal. unfold Reference.total. cbn [foldr]. lra.
Qed.

(** One square that leaves the range of a float ends the sum. *)
Lemma sum_squared_deviations_raise (xs : list R) (avg : R) :
  ∀ acc,
    Exists (fun x => 2 ^ 1024 <= (x - avg) ^ 2) xs ->
    sum_squared_deviations xs avg acc = Raise (OverflowError RESULT_OUT_OF_RANGE).
Proof.
  induction xs as [|x xs IH]; intros acc Hex; [inversion Hex|].
  cbn [sum_squared_deviations]. unfold squared_deviation.
  destruct (Rle_dec _ _) as [Hbig|Hsmall]; [reflexivity|].
  cbn [mbind result_bind]. apply IH.
  inversion Hex as [? ? Hx|? ? Hxs]; subst; [contradiction|exact Hxs].
Qed.

Lemma square_out_of_range_decide (xs : list R) :
  Reference.square_out_of_range xs ∨ ¬ Reference.square_out_of_range xs.
Proof.
  unfold Reference.square_out_of_range. generalize (Reference.average xs) as avg.
  intros avg. induction xs as [|x xs [IH|IH]].
  - right. intros H. inversion H.
  - left. apply Exists_cons_tl. exact IH.
  - destruct (Rle_dec (2 ^ 1024) (Rsqr (x - avg))) as [Hx|Hx].
    + left. apply Exists_cons_hd. exact Hx.
    + right. intros H. inversion H; subst; contradiction.
Qed.

Lemma in_range_squares (xs : list R) :
  ¬ Reference.square_out_of_range xs ->
  Forall (fun x => (x - Reference.average xs) ^ 2 < 2 ^ 1024) xs.
Proof.
  unfold Reference.square_out_of_range. generalize (Reference.average xs) as avg.
  intros avg Hno. induction xs as [|x xs IH]; constructor.
  - rewrite <- Rsqr_pow2. apply Rnot_le_lt. intros Hx. apply Hno.
    apply Exists_cons_hd. exact Hx.
  - apply IH. intros Hex. apply Hno. apply Exists_cons_tl. exact Hex.
Qed.

Lemma out_of_range_squares (xs : list R) :
  Reference.square_out_of_range xs ->
  Exists (fun x => 2 ^ 1024 <= (x - Reference.average xs) ^ 2) xs.
Proof.
  unfold Reference.square_out_of_range. intros Hex.
  eapply Exists_impl; [exact Hex|]. intros x Hx. cbn in Hx.
  rewrite <- Rsqr_pow2. exact Hx.
Qed.

(** What [_update_timeout] sets on a non-empty window none of whose
    squared deviations leaves the range of a float. *)
Lemma update_timeout_ok (self : t) :
  rtt_samples self ≠ [] ->
  ¬ Reference.square_out_of_range (rtt_samples self) ->
  _update_timeout self
  = Ok (set_current_timeout
          (Reference.clamp (min_timeout self) (max_timeout self)
             (Reference.average (rtt_samples self)
              + 4 * Reference.population_stddev (rtt_samples self))) self).
Proof.
  intros Hne Hin. unfold _update_timeout.
  destruct (rtt_samples self) as [|x xs] eqn:E; [congruence|].
  rewrite code_average.
  rewrite (sum_squared_deviations_ok _ _ 0 (in_range_squares _ Hin)).
  cbn [mbind result_bind]. rewrite py_max_Rmax, py_min_Rmin, Rplus_0_l.
  unfold Reference.clamp, Reference.population_stddev, len.
  rewrite <- INR_IZR_INZ.
  assert (Hsq : map (fun y => (y - Reference.average (x :: xs)) ^ 2) (x :: xs)
                = map (fun y => Rsqr (y - Reference.average (x :: xs))) (x :: xs)).
  { apply map_ext. intros y. rewrite Rsqr_pow2. reflexivity. }
  rewrite Hsq. reflexivity.
Qed.

(** [_update_timeout] raises when a squared deviation leaves the range of
    a float. *)
Lemma update_timeout_raise (self : t) :
  Reference.square_out_of_range (rtt_samples self) ->
  _update_timeout self = Raise (OverflowError RESULT_OUT_OF_RANGE).
Proof.
  intros Hout. unfold _update_timeout.
  destruct (rtt_samples self) as [|x xs] eqn:E; [inversion Hout|].
  rewrite code_average.
  rewrite (sum_squared_deviations_raise _ _ 0 (out_of_range_squares _ Hout)).
  reflexivity.
Qed.

(** The three ways a [record_rtt] call can go: the window it leaves is
    empty and nothing else changes; the call sets the timeout from the
    window; the call raises on the window it has just updated. *)
Lemma record_rtt_cases (rtt : R) (self : t) :
  let window :=
    let samples := rtt_samples self ++ [rtt] in
    if decide (len samples > max_samples self)%Z then drop 1 samples else samples in
  (window = [] ∧ record_rtt rtt self = (set_rtt_samples window self, None))
  ∨ (window ≠ [] ∧ ¬ Reference.square_out_of_range window
     ∧ record_rtt rtt self
       = (set_current_timeout
            (Reference.clamp (min_timeout self) (max_timeout self)
               (Reference.average window + 4 * Reference.population_stddev window))
            (set_rtt_samples window self), None))
  ∨ (Reference.square_out_of_range window
     ∧ record_rtt rtt self
       = (set_rtt_samples window self, Some (OverflowError RESULT_OUT_OF_RANGE))).
Proof.
  intros window. unfold record_rtt. cbn zeta. fold window. clearbody window.
  destruct (square_out_of_range_decide window) as [Hout|Hin].
  - right. right. split; [exact Hout|].
    rewrite update_timeout_raise by exact Hout. reflexivity.
  - destruct window as [|x xs].
    + left. split; reflexivity.
    + right. left. split; [discriminate|]. split; [exact Hin|].
      rewrite update_timeout_ok; [reflexivity|discriminate|exact Hin].
Qed.

(** No call changes the bounds, the window size or, [record_rtt] apart,
    the window. *)
Lemma run_call_frame (c : call) (self : t) :
  min_timeout (run_call c self) = min_timeout self
  ∧ max_timeout (run_call c self) = max_timeout self
  ∧ max_samples (run_call c self) = max_samples self
  ∧ match c with
    | RecordRtt rtt =>
        rtt_samples (run_call c self)
        = let samples := rtt_samples self ++ [rtt] in
          if decide (len samples > max_samples self)%Z then drop 1 samples else samples
    | _ => rtt_samples (run_call c self) = rtt_samples self
    end.
Proof.
  destruct c as [rtt| |]; cbn [run_call]; [|cbn; auto..].
  destruct (record_rtt_cases rtt self) as [(_ & ->)|[(_ & _ & ->)|(_ & ->)]];
    cbn; auto.
Qed.

(** A window of equal samples: its average is the sample, its deviation
    is zero, and no square leaves the range of a float. *)
Lemma steady_window (r : R) (window : list R) :
  Forall (fun x => x = r) window -> window ≠ [] ->
  Reference.average window = r
  ∧ Reference.population_stddev window = 0
  ∧ ¬ Reference.square_out_of_range window.
Proof.
  intros Hall Hne.
  assert (Hn : 0 < INR (length window)).
  { apply lt_0_INR. destruct window; [contradiction|cbn [length]; lia]. }
  assert (Havg : Reference.average window = r).
  { unfold Reference.average. rewrite (total_constant r window Hall). field. lra. }
  split; [exact Havg|]. split.
  - unfold Reference.population_stddev. rewrite Havg.
    rewrite (total_constant 0 (map (fun x => Rsqr (x - r)) window)).
    + replace (INR _ * 0 / INR (length window)) with 0 by (field; lra).
      apply sqrt_0.
    + apply Forall_map. eapply Forall_impl; [exact Hall|].
      intros y ->. cbn. unfold Rsqr. lra.
  - unfold Reference.square_out_of_range. rewrite Havg. intros Hex.
    apply Exists_exists in Hex as (x & Hin & Hbig).
    rewrite Forall_forall in Hall. rewrite (Hall x Hin) in Hbig.
    unfold Rsqr in Hbig. lra.
Qed.

(** [record_rtt] of the sample the window already repeats: the call
    returns, the window still repeats the sample, and the timeout is the
    sample clamped. *)
Lemma record_rtt_steady (r : R) (self : t) :
  Forall (fun x => x = r) (rtt_samples self) ->
  snd (record_rtt r self) = None
  ∧ Forall (fun x => x = r) (rtt_samples (fst (record_rtt r self)))
  ∧ (rtt_samples (fst (record_rtt r self)) ≠ [] ->
     current_timeout (fst (record_rtt r self))
     = Reference.clamp (min_timeout self) (max_timeout self) r).
Proof.
  intros Hall.
  pose proof (record_rtt_cases r self) as Hcases. cbn zeta in Hcases.
  set (window := if decide (len (rtt_samples self ++ [r]) > max_samples self)%Z
                 then drop 1 (rtt_samples self ++ [r])
                 else rtt_samples self ++ [r]) in Hcases.
  assert (Hwindow : Forall (fun x => x = r) window).
  { assert (Happ : Forall (fun x => x = r) (rtt_samples self ++ [r])).
    { apply Forall_app. split; [exact Hall|]. constructor; [reflexivity|constructor]. }
    unfold window. destruct (decide _); [apply Forall_drop|]; exact Happ. }
  clearbody window.
  destruct Hcases as [(Hnil & ->)|[(Hne & _ & ->)|(Hout & _)]].
  - cbn. split; [reflexivity|]. split; [exact Hwindow|]. congruence.
  - cbn. split; [reflexivity|]. split; [exact Hwindow|]. intros _.
    destruct (steady_window r window Hwindow Hne) as (-> & -> & _).
    f_equal. lra.
  - exfalso. assert (Hne : window ≠ []) by (intros ->; inversion Hout).
    destruct (steady_window r window Hwindow Hne) as (_ & _ & Hin). contradiction.
Qed.





Lemma run_snoc (cs : list call) (c : call) (self : t) :
  run (cs ++ [c]) self = run_call c (run cs self).
Proof. unfold run. rewrite fold_left_app. reflexivity. Qed.

(** The bound is kept by every call once it holds. *)
Lemma run_call_bounds (c : call) (self : t) :
  min_timeout self = 1 / 10 -> max_timeout self = 30 ->
  1 / 10 <= current_timeout self <= 30 ->
  1 / 10 <= current_timeout (run_call c self) <= 30.
Proof.
  intros Hmin Hmax Hcur. destruct c as [rtt| |]; cbn [run_call].
  - destruct (record_rtt_cases rtt self) as [(_ & ->)|[(_ & _ & ->)|(_ & ->)]];
      cbn [fst current_timeout set_current_timeout set_rtt_samples]; try exact Hcur.
    rewrite Hmin, Hmax. unfold Reference.clamp, Rmax, Rmin.
    repeat destruct (Rle_dec _ _); lra.
  - cbn. rewrite Hmax. unfold py_min. destruct (Rlt_dec _ _); lra.
  - cbn. rewrite Hmin. unfold py_max. destruct (Rlt_dec _ _); lra.
Qed.

Lemma run_bounds (cs : list call) :
  ∀ self,
    min_timeout self = 1 / 10 -> max_timeout self = 30 ->
    1 / 10 <= current_timeout self <= 30 ->
    min_timeout (run cs self) = 1 / 10 ∧ max_timeout (run cs self) = 30
    ∧ 1 / 10 <= current_timeout (run cs self) <= 30.
Proof.
  induction cs as [|c cs IH]; intros self Hmin Hmax Hcur; [cbn; auto|].
  change (run (c :: cs) self) with (run cs (run_call c self)).
  destruct (run_call_frame c self) as (Hmin' & Hmax' & _).
  apply IH; [congruence|congruence|].
  apply run_call_bounds; assumption.
Qed.

Lemma run_limits (x : R) (cs : list call) :
  min_timeout (run cs (init x)) = 1 / 10 ∧ max_timeout (run cs (init x)) = 30
  ∧ max_samples (run cs (init x)) = 50%Z.
Proof.
  induction cs as [|c cs IH] using rev_ind; [cbn; auto|].
  rewrite run_snoc. destruct (run_call_frame c (run cs (init x))) as (-> & -> & -> & _).
  exact IH.
Qed.

(** C6 as the code has it: when the initial timeout handed to the
    constructor lies between the bounds (as the default 0.5 does), the
    bound [min_timeout <= current_timeout <= max_timeout], that is 0.1 to
    30.0, holds right after construction and after any sequence of
    [record_rtt], [on_retransmission] and [on_successful_ack] calls, so
    [get_timeout] returns a bounded positive value. *)
Theorem timeout_bounds (initial_timeout : R) (cs : list call) :
  1 / 10 <= initial_timeout <= 30 ->
  let self := run cs (init initial_timeout) in
  min_timeout self = 1 / 10 ∧ max_timeout self = 30
  ∧ min_timeout self <= current_timeout self <= max_timeout self
  ∧ 0 < get_timeout self <= 30.
Proof.
  intros Hinit self.
  destruct (run_bounds cs (init initial_timeout)) as (Hmin & Hmax & Hcur);
    [reflexivity|reflexivity|exact Hinit|].
  fold self in Hmin, Hmax, Hcur. unfold get_timeout. rewrite Hmin, Hmax. lra.
Qed.

Lemma timeout_bounds_witness :
  1 / 10 <= 1 / 2 <= 30
  ∧ let self := run [OnRetransmission; RecordRtt 2; OnSuccessfulAck] (init (1 / 2)) in
    min_timeout self = 1 / 10 ∧ max_timeout self = 30
    ∧ min_timeout self <= current_timeout self <= max_timeout self
    ∧ 0 < get_timeout self <= 30.
Proof.
  split; [lra|].
  apply (timeout_bounds (1 / 2) [OnRetransmission; RecordRtt 2; OnSuccessfulAck]).
  lra.
Defined.

(** C6 as stated fails right after construction: the constructor stores
    the initial timeout it is given without clamping it. *)
Lemma timeout_bounds_fail_after_construction :
  ¬ (min_timeout (init 60) <= current_timeout (init 60) <= max_timeout (init 60))
  ∧ ¬ (0 < get_timeout (init (-1))).
Proof. cbn. split; lra. Qed.

End TimeoutFacts.

Section TimeoutWindowFacts.
Import TimeoutManager.
Local Open Scope R_scope.

Lemma recorded_snoc (cs : list call) (c : call) :
  recorded (cs ++ [c]) = recorded cs ++ recorded [c].
Proof. unfold recorded. apply flat_map_app. Qed.

(** Appending a sample and dropping the oldest beyond 50 keeps the 50 most
    recent. *)
Lemma window_step (rec : list R) (r : R) :
  (let samples := Reference.most_recent 50 rec ++ [r] in
   if decide (len samples > 50)%Z then drop 1 samples else samples)
  = Reference.most_recent 50 (rec ++ [r]).
Proof.
  unfold Reference.most_recent, len. cbn zeta.
  rewrite !length_app, length_drop. cbn [length].
  destruct (decide _) as [Hfull|Hroom].
  - rewrite !drop_app_le by (rewrite ?length_drop; lia).
    rewrite drop_drop. do 2 f_equal. lia.
  - replace (length rec - 50)%nat with 0%nat by lia.
    replace (length rec + 1 - 50)%nat with 0%nat by lia.
    reflexivity.
Qed.

(** The window is the 50 most recent of the samples recorded so far. *)
Lemma run_window (x : R) (cs : list call) :
  rtt_samples (run cs (init x)) = Reference.most_recent 50 (recorded cs).
Proof.
  induction cs as [|c cs IH] using rev_ind; [reflexivity|].
  rewrite run_snoc, recorded_snoc.
  destruct (run_call_frame c (run cs (init x))) as (_ & _ & _ & Hsamples).
  destruct (run_limits x cs) as (_ & _ & Hmax).
  destruct c as [rtt| |]; rewrite Hsamples.
  - rewrite Hmax, IH. apply window_step.
  - cbn [recorded flat_map]. rewrite app_nil_r. exact IH.
  - cbn [recorded flat_map]. rewrite app_nil_r. exact IH.
Qed.




(** Splits on a comparison of the goal none of whose sides holds another
    comparison, and drops the branch the hypotheses exclude. *)
Ltac case_innermost :=
  match goal with
  | |- context [Rlt_dec ?a ?b] =>
      lazymatch constr:((a, b)) with
      | context [Rlt_dec] => fail
      | _ => destruct (Rlt_dec a b); try (exfalso; lra)
      end
  | |- context [Rle_dec ?a ?b] =>
      lazymatch constr:((a, b)) with
      | context [Rle_dec] => fail
      | _ => destruct (Rle_dec a b); try (exfalso; lra)
      end
  end.

Lemma on_retransmission_timeout (self : t) :
  get_timeout (on_retransmission self)
  = Rmin (get_timeout self * 2) (max_timeout self)
  ∧ max_timeout (on_retransmission self) = max_timeout self.
Proof. cbn. rewrite py_min_Rmin. auto. Qed.

Lemma backoff_step (self : t) (c : R) :
  get_timeout self = c ∧ max_timeout self = 30 ->
  get_timeout (on_retransmission self) = Rmin (c * 2) 30
  ∧ max_timeout (on_retransmission self) = 30.
Proof.
  intros [Hc Hm]. destruct (on_retransmission_timeout self) as [-> ->].
  rewrite Hc, Hm. auto.
Qed.

(** C8 as the code has it: three consecutive [on_retransmission] calls
    strictly increase [get_timeout] each time exactly when the timeout
    before the first call is positive and below a quarter of the maximum
    (7.5 in the reference configuration); the calls then give twice, four
    times, and the smaller of eight times that timeout and 30.0. From any
    other state one of the three calls does not increase the value. After
    each call the value is at most 30.0. *)
Theorem retransmission_backoff (initial_timeout : R) (cs : list call) :
  let s0 := run cs (init initial_timeout) in
  let s1 := on_retransmission s0 in
  let s2 := on_retransmission s1 in
  let s3 := on_retransmission s2 in
  (get_timeout s0 < get_timeout s1 ∧ get_timeout s1 < get_timeout s2
   ∧ get_timeout s2 < get_timeout s3
   <-> 0 < get_timeout s0 < 30 / 4)
  ∧ (0 < get_timeout s0 < 30 / 4 ->
     get_timeout s1 = 2 * get_timeout s0 ∧ get_timeout s2 = 4 * get_timeout s0
     ∧ get_timeout s3 = Rmin (8 * get_timeout s0) 30)
  ∧ get_timeout s1 <= 30 ∧ get_timeout s2 <= 30 ∧ get_timeout s3 <= 30.
Proof.
  intros s0 s1 s2 s3.
  destruct (run_limits initial_timeout cs) as (_ & Hmax & _). fold s0 in Hmax.
  destruct (on_retransmission_timeout s0) as (H1 & Hm1). fold s1 in H1, Hm1.
  destruct (on_retransmission_timeout s1) as (H2 & Hm2). fold s2 in H2, Hm2.
  destruct (on_retransmission_timeout s2) as (H3 & _). fold s3 in H3.
  rewrite Hm2, Hm1, Hmax in H3. rewrite Hm1, Hmax in H2. rewrite Hmax in H1.
  rewrite H3, H2, H1. clear H1 H2 H3 Hm1 Hm2 Hmax.
  generalize (get_timeout s0). clear. intros c.
  unfold Rmin. repeat case_innermost; repeat split; intros; lra.
Qed.

(** C8 as stated fails from a state four timeouts into the default
    back-off (8 seconds): the next three calls give 16, 30 and 30. *)
Lemma retransmission_backoff_stalls_at_cap :
  let s0 := run [OnRetransmission; OnRetransmission; OnRetransmission; OnRetransmission]
                (init (1 / 2)) in
  let s1 := on_retransmission s0 in
  let s2 := on_retransmission s1 in
  let s3 := on_retransmission s2 in
  get_timeout s0 = 8 ∧ get_timeout s1 = 16 ∧ get_timeout s2 = 30 ∧ get_timeout s3 = 30
  ∧ ¬ (get_timeout s2 < get_timeout s3).
Proof.
  intros s0 s1 s2 s3.
  assert (H0 : get_timeout s0 = 8 ∧ max_timeout s0 = 30).
  { unfold s0, run. cbn [fold_left run_call].
    assert (Ha : get_timeout (init (1 / 2)) = 1 / 2 ∧ max_timeout (init (1 / 2)) = 30)
      by (split; reflexivity).
    do 4 (apply backoff_step in Ha; rewrite Rmin_left in Ha by lra).
    destruct Ha as [-> ->]. split; [lra|reflexivity]. }
  assert (H1 : get_timeout s1 = 16 ∧ max_timeout s1 = 30)
    by (unfold s1; apply backoff_step in H0; rewrite Rmin_left in H0 by lra;
        destruct H0 as [-> ->]; split; [lra|reflexivity]).
  assert (H2 : get_timeout s2 = 30 ∧ max_timeout s2 = 30)
    by (unfold s2; apply backoff_step in H1; rewrite Rmin_right in H1 by lra; exact H1).
  assert (H3 : get_timeout s3 = 30 ∧ max_timeout s3 = 30)
    by (unfold s3; apply backoff_step in H2; rewrite Rmin_right in H2 by lra; exact H2).
  destruct H0 as [-> _], H1 as [-> _], H2 as [-> _], H3 as [-> _].
  repeat split; lra.
Qed.

End TimeoutWindowFacts.

(** ** The fault injector *)

Section CorruptionFacts.
Import PacketStructure NetworkSimulator Wire.

Lemma bytes_of_ints_values (l : bytes) : bytes_of_ints (map byte_val l) = Ok l.
Proof.
  induction l as [|b l IH]; [reflexivity|]. cbn [map bytes_of_ints].
  pose proof (byte_val_range b) as Hb.
  destruct (Z.leb_spec 0 (byte_val b)), (Z.ltb_spec (byte_val b) 256); try lia.
  cbn [andb]. rewrite IH. cbn. rewrite byte_of_Z_val. reflexivity.
Qed.

Lemma map_insert {A B} (f : A -> B) (l : list A) :
  ∀ (i : nat) (x : A), map f (<[i:=x]> l) = <[i:=f x]> (map f l).
Proof.
  induction l as [|a l IH]; intros [|i] x; try reflexivity.
  change (<[S i:=x]> (a :: l)) with (a :: <[i:=x]> l).
  cbn [map]. rewrite IH. reflexivity.
Qed.

Lemma map_lookup {A B} (f : A -> B) (l : list A) :
  ∀ i : nat, map f l !! i = f <$> l !! i.
Proof. induction l as [|a l IH]; intros [|i]; try reflexivity. apply IH. Qed.

Lemma len_map {A B} (f : A -> B) (l : list A) : len (map f l) = len l.
Proof. unfold len. rewrite length_map. reflexivity. Qed.

(** With its draws in range, [_corrupt_packet] on a packet longer than the
    header flips the drawn bit of the drawn byte. *)
Lemma corrupt_long (packet : bytes) (pos_draw bit_draw : Z) :
  len packet > 7 -> 7 <= pos_draw <= len packet - 1 -> 0 <= bit_draw <= 7 ->
  _corrupt_packet pos_draw bit_draw packet = Ok (flip_bit pos_draw bit_draw packet).
Proof.
  intros Hlong Hpos Hbit. unfold _corrupt_packet. rewrite len_map.
  destruct (decide _) as [_|Hn]; [|lia].
  destruct (lookup_lt_is_Some_2 packet (Z.to_nat pos_draw)) as [b Hb];
    [unfold len in Hpos; lia|].
  unfold getitem. rewrite map_lookup, Hb.
  cbn [fmap option_fmap option_map mbind result_bind mret result_ret].
  pose proof (flip_byte_value (byte_val b) bit_draw (byte_val_range b) Hbit) as (Hr & _).
  rewrite <- (byte_val_of_Z (Z.lxor (byte_val b) (Z.shiftl 1 bit_draw))) by exact Hr.
  rewrite <- map_insert, bytes_of_ints_values.
  unfold flip_bit. rewrite (alter_as_insert _ _ _ _ Hb). reflexivity.
Qed.

(** On a packet no longer than the header no draw is made and nothing
    changes. *)
Lemma corrupt_short (packet : bytes) (pos_draw bit_draw : Z) :
  len packet <= 7 -> _corrupt_packet pos_draw bit_draw packet = Ok packet.
Proof.
  intros Hshort. unfold _corrupt_packet. rewrite len_map.
  destruct (decide _) as [Hn|_]; [lia|].
  cbn [mbind result_bind mret result_ret]. apply bytes_of_ints_values.
Qed.

(** C10: whatever its two random draws, [_corrupt_packet] returns a
    buffer of the same length that differs from its input in at most one
    bit, and only at a byte offset from 7 on: the seven header bytes
    (sequence, ack, flags, length and checksum fields) are never altered.
    A packet of 7 bytes or fewer comes back unchanged, so every
    payload-free packet [create_packet] builds, an ACK in particular, comes
    back unchanged; a longer packet comes back with exactly the drawn bit
    flipped. *)
Theorem corrupt_packet_frame (packet : bytes) (pos_draw bit_draw : Z) :
  draws_for packet pos_draw bit_draw ->
  ∃ out,
    _corrupt_packet pos_draw bit_draw packet = Ok out
    ∧ len out = len packet
    ∧ (bit_distance packet out <= 1)%nat
    ∧ take 7 out = take 7 packet
    ∧ (∀ i : nat, out !! i ≠ packet !! i -> (7 <= i)%nat ∧ i = Z.to_nat pos_draw)
    ∧ (len packet <= 7 -> out = packet)
    ∧ (len packet > 7 ->
       out = flip_bit pos_draw bit_draw packet ∧ bit_distance packet out = 1%nat)
    ∧ (∀ seq_num ack_num flags,
         create_packet seq_num ack_num flags [] = Ok packet -> out = packet).
Proof.
  intros Hdraws. destruct (decide (len packet > 7)) as [Hlong|Hshort].
  - destruct (Hdraws Hlong) as [Hpos Hbit]. unfold randint in Hpos, Hbit.
    exists (flip_bit pos_draw bit_draw packet).
    assert (Hdist : bit_distance packet (flip_bit pos_draw bit_draw packet) = 1%nat)
      by (apply bit_distance_flip_bit; lia).
    split; [apply corrupt_long; assumption|].
    split; [apply len_flip_bit|]. split; [lia|].
    split; [unfold flip_bit; apply take_alter_ge; lia|].
    split; [|split; [lia|split; [auto|]]].
    + intros i Hi. destruct (decide (i = Z.to_nat pos_draw)) as [->|Hne]; [lia|].
      exfalso. apply Hi. unfold flip_bit. apply list_lookup_alter_ne. congruence.
    + intros seq_num ack_num flags Hcreate.
      destruct (create_packet_ok seq_num ack_num flags []) as (c & _ & _ & Hok);
        [rewrite len_nil; lia|].
      rewrite Hok in Hcreate. injection Hcreate as <-.
      unfold header_bytes in Hlong. cbn [app] in Hlong.
      rewrite len_cons7, len_nil in Hlong. lia.
  - exists packet. split; [apply corrupt_short; lia|].
    rewrite bit_distance_refl.
    repeat split; try reflexivity; try lia; auto; intros; try lia; congruence.
Qed.

Local Abbreviation sample_packet :=
  (["000"; "000"; "008"; "000"; "003"; "143"; "K"; "H"; "e"; "l"]%byte).

Lemma corrupt_packet_frame_witness :
  draws_for sample_packet 8 0
  ∧ ∃ out,
      _corrupt_packet 8 0 sample_packet = Ok out
      ∧ len out = len sample_packet
      ∧ (bit_distance sample_packet out <= 1)%nat
      ∧ take 7 out = take 7 sample_packet
      ∧ (∀ i : nat, out !! i ≠ sample_packet !! i -> (7 <= i)%nat ∧ i = Z.to_nat 8)
      ∧ (len sample_packet <= 7 -> out = sample_packet)
      ∧ (len sample_packet > 7 ->
         out = flip_bit 8 0 sample_packet ∧ bit_distance sample_packet out = 1%nat)
      ∧ (∀ seq_num ack_num flags,
           create_packet seq_num ack_num flags [] = Ok sample_packet -> out = sample_packet).
Proof.
  assert (Hdraws : draws_for sample_packet 8 0).
  { intros _. unfold randint, len. cbn [length]. lia. }
  split; [exact Hdraws|].
  apply (corrupt_packet_frame sample_packet 8 0 Hdraws).
Defined.

End CorruptionFacts.

(** ** The sender *)

Section SenderFacts.
Import PacketStructure Wire BeardownSender Transfer.

(** An encoded packet decodes to the fields it was built from. *)
Lemma parse_created (seq_num ack_num flags checksum : Z) (data : bytes) :
  len data <= 1000 -> 0 <= checksum < 65536 ->
  parse_packet (header_bytes seq_num ack_num flags (len data) checksum ++ data)
  = Ok (Z.land seq_num 0xFF, Z.land ack_num 0xFF, Z.land flags 0xFF,
        len data, data, checksum).
Proof.
  intros Hlen Hc. pose proof (len_nonneg data) as Hnn.
  unfold header_bytes. cbn [app]. rewrite parse_packet_long.
  rewrite !unpack_pack_H by lia.
  destruct (decide _) as [Hbad|_]; [congruence|].
  rewrite !byte_val_of_Z by (rewrite land_FF; lia). reflexivity.
Qed.

Lemma len_take {A} (n : nat) (l : list A) : len (take n l) = Z.min (Z.of_nat n) (len l).
Proof. unfold len. rewrite length_take. lia. Qed.

Lemma len_drop {A} (n : nat) (l : list A) : len (drop n l) = Z.max 0 (len l - Z.of_nat n).
Proof. unfold len. rewrite length_drop. lia. Qed.

Lemma len_segment (k : Z) (data : bytes) :
  0 <= k -> len (segment k data) = Z.max 0 (Z.min 1000 (len data - 1000 * k)).
Proof.
  intros Hk. unfold segment, slice_to, slice_from, MAX_PAYLOAD_SIZE.
  rewrite len_take, len_drop. lia.
Qed.

(** The slice [_extract_data_segment] takes at a segment boundary. *)
Lemma extract_is_segment (data : bytes) (k : Z) (self : t) :
  data_buffer self = data -> total_size self = len data ->
  current_offset self = 1000 * k -> 0 <= k -> 1000 * k < len data ->
  _extract_data_segment self = segment k data.
Proof.
  intros Hbuf Htot Hoff Hk Hlt.
  unfold _extract_data_segment, segment, slice_to, slice_from, MAX_PAYLOAD_SIZE.
  rewrite Hbuf, Htot, Hoff.
  set (rest := drop (Z.to_nat (1000 * k)) data).
  assert (Hrest : len rest = len data - 1000 * k)
    by (unfold rest; rewrite len_drop; lia).
  rewrite <- Hrest. unfold len in *.
  destruct (decide (length rest <= 1000)%nat) as [Hle|Hgt].
  - rewrite !take_ge by lia. reflexivity.
  - f_equal. lia.
Qed.

(** A carried segment decodes to a payload of 1 to 1000 bytes. *)
Lemma carries_parse (data packet : bytes) (k : Z) :
  carries data packet k ->
  ∃ seq_num checksum,
    parse_packet packet
    = Ok (seq_num, 0, Flags.DATA, len (segment k data), segment k data, checksum)
    ∧ len (segment k data) = Z.min 1000 (len data - 1000 * k)
    ∧ len packet = 7 + len (segment k data).
Proof.
  intros (Hk & Hlt & seq_num & Hcreate). unfold MAX_PAYLOAD_SIZE in Hlt.
  pose proof (len_segment k data Hk) as Hlen.
  destruct (create_packet_ok seq_num 0 Flags.DATA (segment k data))
    as (checksum & _ & Hc & Hok); [lia|].
  pose proof (parse_created seq_num 0 Flags.DATA checksum (segment k data)
                ltac:(lia) Hc) as Hparse.
  rewrite Hok in Hcreate. injection Hcreate as <-.
  exists (Z.land seq_num 0xFF), checksum.
  split; [exact Hparse|]. split; [lia|]. apply len_cons7.
Qed.

Lemma retire_segment_fields (now : R) (self self' : t) :
  retire_segment now self = Ok self' ->
  data_buffer self' = data_buffer self ∧ total_size self' = total_size self
  ∧ current_offset self' = current_offset self + len (current_data self)
  ∧ current_data self' = current_data self
  ∧ current_packet self' = current_packet self
  ∧ pending_ack self' = false
  ∧ SequenceNumberManager.increment (seq_manager self) = Ok (seq_manager self').
Proof.
  unfold retire_segment.
  destruct (feed_estimator now self) as [tm|e];
    cbn [mbind result_bind mret result_ret]; [|discriminate].
  destruct (SequenceNumberManager.increment (seq_manager self)) as [sm|e];
    cbn [mbind result_bind mret result_ret]; [|discriminate].
  intros [= <-]. cbn. auto 10.
Qed.

(** [process_ack] leaves the sender as it was or retires the segment. *)
Lemma process_ack_cases (now : R) (ack_packet : bytes) (self : t) :
  fst (process_ack now ack_packet self) = self
  ∨ retire_segment now self = Ok (fst (process_ack now ack_packet self)).
Proof.
  unfold process_ack.
  destruct (validate_packet ack_packet) as [is_valid msg].
  destruct is_valid; cbn [negb]; [|left; reflexivity].
  destruct (parse_packet ack_packet) as [[[[[[s a] f] l] d] c]|e];
    cbn [mbind result_bind mret result_ret]; [|left; reflexivity].
  destruct (decide (Z.land f Flags.ACK = 0)) as [Hflag|Hflag]; [left; reflexivity|].
  destruct (py_mod _ _) as [expected|e1];
    cbn [mbind result_bind mret result_ret]; [|left; reflexivity].
  destruct (decide (a = expected)) as [Hack|Hack]; [|left; reflexivity].
  destruct (retire_segment now self) as [self'|e2];
    cbn [mbind result_bind mret result_ret]; [right|left]; reflexivity.
Qed.

Lemma invariant_load (timeout : R) (data : bytes) :
  invariant data (load_data data (init timeout)).
Proof.
  unfold invariant. cbn. pose proof (len_nonneg data).
  repeat split; auto; try lia. discriminate.
Qed.

(** Every call keeps the invariant, raises nothing, and hands the channel
    nothing but a packet that carries a segment of the data. *)
Lemma run_call_invariant (data : bytes) (c : call) (self : t) :
  invariant data self ->
  ∃ self' out,
    run_call c self = Ok (self', out)
    ∧ invariant data self'
    ∧ ∀ packet, out = Some packet -> ∃ k, carries data packet k.
Proof.
  intros (Hbuf & Htot & Hoff & Halign & Hseg & Hpkt).
  destruct c as [now | now ack_packet | now]; cbn [run_call].
  - unfold get_next_packet.
    destruct (_should_retransmit now self).
    { eexists _, _. split; [reflexivity|]. split; [|exact Hpkt].
      unfold invariant. cbn. auto 10. }
    destruct (pending_ack self).
    { eexists _, _. split; [reflexivity|]. split; [|discriminate].
      unfold invariant. auto 10. }
    destruct (decide _) as [Hdone|Hmore].
    { eexists _, _. split; [reflexivity|]. split; [|discriminate].
      unfold invariant. auto 10. }
    rewrite Htot in Hmore.
    destruct Halign as [Halign|Hpast]; [|lia].
    set (k := current_offset self `div` 1000).
    assert (Hk : current_offset self = 1000 * k) by (unfold k; lia).
    assert (Hk0 : 0 <= k) by lia.
    rewrite (extract_is_segment data k self Hbuf Htot Hk Hk0) by lia.
    pose proof (len_segment k data Hk0) as Hlen.
    unfold _create_data_packet.
    destruct (create_packet_ok
                (SequenceNumberManager.get_current (seq_manager self)) 0
                Flags.DATA (segment k data)) as (checksum & _ & _ & Hok); [lia|].
    rewrite Hok. cbn [mbind result_bind mret result_ret].
    assert (Hcarry : carries data
              (header_bytes (SequenceNumberManager.get_current (seq_manager self)) 0
                 Flags.DATA (len (segment k data)) checksum ++ segment k data) k).
    { split; [exact Hk0|]. split; [unfold MAX_PAYLOAD_SIZE; lia|]. eauto. }
    eexists _, _. split; [reflexivity|]. split.
    + unfold invariant. cbn [data_buffer total_size current_offset current_data
                              current_packet].
      repeat split; auto; try lia.
      intros packet [= <-]. eauto.
    + intros packet [= <-]. eauto.
  - eexists _, _. split; [reflexivity|]. split; [|discriminate]. cbn [fst].
    destruct (process_ack_cases now ack_packet self) as [-> | Hretire].
    + unfold invariant. auto 10.
    + apply retire_segment_fields in Hretire
        as (Hb' & Ht' & Ho' & Hd' & Hp' & _).
      pose proof (len_nonneg (current_data self)) as Hnn.
      unfold invariant. rewrite Hb', Ht', Ho', Hd', Hp'.
      repeat split; auto; lia.
  - eexists _, _. split; [reflexivity|]. split; [|discriminate].
    unfold invariant. cbn. auto 10.
Qed.

Lemma run_invariant (data : bytes) (cs : list call) :
  ∀ self,
    invariant data self ->
    ∃ final outs,
      run cs self = Ok (final, outs)
      ∧ invariant data final
      ∧ Forall (fun packet => ∃ k, carries data packet k) outs.
Proof.
  induction cs as [|c cs IH]; intros self Hinv.
  - exists self, []. cbn. auto.
  - destruct (run_call_invariant data c self Hinv) as (self' & out & Hcall & Hinv' & Hout).
    destruct (IH self' Hinv') as (final & outs & Hrun & Hfinal & Houts).
    exists final, (from_option (fun p => [p]) [] out ++ outs).
    cbn [run]. rewrite Hcall. cbn [mbind result_bind mret result_ret].
    rewrite Hrun. cbn [mbind result_bind mret result_ret].
    split; [reflexivity|]. split; [exact Hfinal|].
    apply Forall_app. split; [|exact Houts].
    destruct out as [packet|]; cbn; [|constructor].
    constructor; [|constructor]. apply Hout. reflexivity.
Qed.

End SenderFacts.

Section TransferFacts.
Import PacketStructure Wire BeardownSender Transfer.

(** The sender accepts the ack that names the sequence number after its
    own. *)
Lemma ack_packet_accepted (ack_num : Z) :
  ack_num = 0 ∨ ack_num = 1 ->
  validate_packet (ack_packet_for ack_num) = (true, EmptyString)
  ∧ ∃ checksum,
      parse_packet (ack_packet_for ack_num)
      = Ok (0, ack_num, Flags.ACK, 0, [], checksum).
Proof.
  intros [-> | ->]; (split; [vm_compute; reflexivity|]);
    eexists; vm_compute; reflexivity.
Qed.

(** One round on a channel without faults: the sender builds segment [k],
    takes the ack, and is ready for segment [k + 1]. *)
Lemma fault_free_round (data : bytes) (k : Z) (now : R) (self : t) :
  ready data k self -> 0 <= k -> 1000 * k < len data ->
  ∃ self1 self' packet,
    run_call (GetNextPacket now) self = Ok (self1, Some packet)
    ∧ run_call (ProcessAck now (ack_packet_for ((k + 1) `mod` 2))) self1
      = Ok (self', None)
    ∧ ready data (k + 1) self'
    ∧ carries data packet k.
Proof.
  intros (Hbuf & Htot & Hoff & Hpend & Hmod & Hseq & Hrtt) Hk Hlt.
  assert (Hoff' : current_offset self = 1000 * k) by lia.
  pose proof (len_segment k data Hk) as Hlen.
  destruct (create_packet_ok
              (SequenceNumberManager.get_current (seq_manager self)) 0
              Flags.DATA (segment k data)) as (checksum & _ & _ & Hok); [lia|].
  cbn [run_call]. unfold get_next_packet, _should_retransmit.
  rewrite Hpend. destruct (decide _) as [Hdone|_]; [lia|].
  rewrite (extract_is_segment data k self Hbuf Htot Hoff' Hk Hlt).
  unfold _create_data_packet. rewrite Hok. cbn [mbind result_bind mret result_ret].
  eexists _, _, _. split; [reflexivity|].
  assert (Hack : (k + 1) `mod` 2 = 0 ∨ (k + 1) `mod` 2 = 1) by lia.
  destruct (ack_packet_accepted _ Hack) as (Hvalid & c & Hparse).
  unfold process_ack. rewrite Hvalid, Hparse.
  cbn [negb mbind result_bind mret result_ret seq_manager].
  destruct (decide (Z.land Flags.ACK Flags.ACK = 0)) as [Hflag|_];
    [vm_compute in Hflag; discriminate|].
  unfold SequenceNumberManager.get_current, py_mod. rewrite Hmod, Hseq.
  destruct (decide (2 = 0)) as [|_]; [lia|].
  cbn [mbind result_bind mret result_ret].
  destruct (decide _) as [_|Hne]; [|lia].
  destruct (record_rtt_steady 0%R (timeout_manager self) Hrtt)
    as (Hreturns & Hrtt' & _).
  unfold retire_segment, feed_estimator, SequenceNumberManager.increment, py_mod.
  cbn [seq_manager packet_sent_time timeout_manager].
  replace (now - now)%R with 0%R by lra.
  rewrite (surjective_pairing (TimeoutManager.record_rtt 0%R (timeout_manager self))).
  rewrite Hreturns.
  rewrite Hmod, Hseq.
  destruct (decide (2 = 0)) as [|_]; [lia|].
  cbn [mbind result_bind mret result_ret fst].
  split; [reflexivity|]. split.
  - unfold ready. cbn. repeat split; auto; lia.
  - split; [exact Hk|]. split; [unfold MAX_PAYLOAD_SIZE; lia|].
    exists (k `mod` 2). unfold SequenceNumberManager.get_current in Hok.
    rewrite Hseq in Hok. exact Hok.
Qed.

(** [rounds] rounds from segment [k] on, when the data has that many
    segments left. *)
Lemma fault_free_run (data : bytes) (now : R) (rounds : nat) :
  ∀ k self,
    ready data k self -> 0 <= k ->
    1000 * (k + Z.of_nat rounds) - 1000 < len data ->
    ∃ final outs,
      run (fault_free_calls rounds k now) self = Ok (final, outs)
      ∧ ready data (k + Z.of_nat rounds) final
      ∧ length outs = rounds
      ∧ ∀ packet, last outs = Some packet ->
                  carries data packet (k + Z.of_nat rounds - 1).
Proof.
  induction rounds as [|rounds IH]; intros k self Hready Hk Hlt.
  - exists self, []. cbn [fault_free_calls run].
    replace (k + Z.of_nat 0) with k by lia.
    split; [reflexivity|]. split; [exact Hready|]. split; [reflexivity|].
    intros packet Hlast. discriminate.
  - destruct (fault_free_round data k now self Hready Hk)
      as (self1 & self' & packet & Hget & Hack & Hready' & Hcarry); [lia|].
    destruct (IH (k + 1) self' Hready') as (final & outs & Hrun & Hfinal & Hcount & Hlast);
      [lia|lia|].
    exists final, (packet :: outs).
    cbn [fault_free_calls run]. rewrite Hget. cbn [mbind result_bind mret result_ret].
    rewrite Hack. cbn [mbind result_bind mret result_ret].
    rewrite Hrun. cbn [mbind result_bind mret result_ret from_option app].
    replace (k + Z.of_nat (S rounds)) with (k + 1 + Z.of_nat rounds) by lia.
    split; [reflexivity|]. split; [exact Hfinal|].
    split; [cbn [length]; congruence|].
    intros last_packet. rewrite last_cons.
    destruct (last outs) as [p|] eqn:Hl.
    + intros [= <-]. apply Hlast. reflexivity.
    + intros [= <-]. destruct outs as [|p outs]; [|rewrite last_cons in Hl;
        destruct (last outs); discriminate].
      cbn [length] in Hcount. subst rounds.
      replace (k + 1 + Z.of_nat 0 - 1) with k by lia. exact Hcarry.
Qed.

Lemma ready_load (timeout : R) (data : bytes) :
  ready data 0 (load_data data (init timeout)).
Proof.
  unfold ready. cbn. pose proof (len_nonneg data).
  repeat split; try lia. constructor.
Qed.

(** C9: for every loaded input and every sequence of calls on the sender,
    no call raises and every packet [get_next_packet] returns decodes to a
    DATA packet whose payload is one of the 1000-byte segments of the
    input, or the remainder after the last of them: 1 to 1000 bytes. For
    an input of 1,000,001 bytes the segment after the first thousand is a
    remainder of exactly 1 byte, and the transfer over a channel without
    faults completes with that 1-byte segment as its 1001st and last
    packet. *)
Theorem segment_size_bound (timeout : R) (data : bytes) (cs : list call) :
  ∃ final outs,
    run cs (load_data data (init timeout)) = Ok (final, outs)
    ∧ Forall (fun packet =>
                ∃ k seq_num length payload checksum,
                  parse_packet packet
                  = Ok (seq_num, 0, Flags.DATA, length, payload, checksum)
                  ∧ payload = segment k data ∧ 0 <= k ∧ 1000 * k < len data
                  ∧ length = len payload
                  ∧ len payload = Z.min 1000 (len data - 1000 * k)
                  ∧ 1 <= len payload <= MAX_PAYLOAD_SIZE
                  ∧ len packet <= MAX_SEGMENT_SIZE) outs
    ∧ (len data = 1000001 ->
       len (segment 1000 data) = 1
       ∧ ∃ now final' outs' last_packet seq_num checksum,
           run (fault_free_calls 1001 0 now) (load_data data (init timeout))
           = Ok (final', outs')
           ∧ is_complete final' = true
           ∧ length outs' = 1001%nat
           ∧ last outs' = Some last_packet
           ∧ parse_packet last_packet
             = Ok (seq_num, 0, Flags.DATA, 1, segment 1000 data, checksum)).
Proof.
  destruct (run_invariant data cs _ (invariant_load timeout data))
    as (final & outs & Hrun & _ & Houts).
  exists final, outs. split; [exact Hrun|]. split.
  - eapply Forall_impl; [exact Houts|]. intros packet [k Hcarry].
    pose proof Hcarry as (Hk & Hlt & _). unfold MAX_PAYLOAD_SIZE in Hlt.
    destruct (carries_parse data packet k Hcarry) as (seq_num & checksum & Hparse & Hlen & Hp).
    exists k, seq_num, (len (segment k data)), (segment k data), checksum.
    unfold MAX_SEGMENT_SIZE, PACKET_HEADER_SIZE, MAX_PAYLOAD_SIZE.
    repeat split; auto; lia.
  - intros Hsize.
    assert (Hlast : len (segment 1000 data) = 1)
      by (rewrite len_segment by lia; lia).
    split; [exact Hlast|]. exists 0%R.
    destruct (fault_free_run data 0%R 1001 0 _ (ready_load timeout data))
      as (final' & outs' & Hrun' & Hready & Hcount & Hcarry); [lia|lia|].
    destruct (last outs') as [last_packet|] eqn:Hl;
      [|destruct outs' as [|p outs']; [discriminate|rewrite last_cons in Hl;
          destruct (last outs'); discriminate]].
    specialize (Hcarry last_packet eq_refl).
    replace (0 + Z.of_nat 1001 - 1) with 1000 in Hcarry by lia.
    destruct (carries_parse data last_packet 1000 Hcarry)
      as (seq_num & checksum & Hparse & _ & _).
    rewrite Hlast in Hparse.
    exists final', outs', last_packet, seq_num, checksum.
    split; [exact Hrun'|]. split; [|split; [exact Hcount|split; [exact Hl|exact Hparse]]].
    destruct Hready as (_ & Htot & Hoff & Hpend & _).
    unfold is_complete. rewrite Hpend, Htot, Hoff.
    apply andb_true_intro. split; [apply bool_decide_eq_true; lia|reflexivity].
Qed.

Lemma segment_size_bound_witness :
  len (replicate (Z.to_nat 1000001) x00) = 1000001
  ∧ len (segment 1000 (replicate (Z.to_nat 1000001) x00)) = 1
  ∧ ∃ final outs,
      run [GetNextPacket 0; GetNextPacket 1]
          (load_data (replicate (Z.to_nat 1000001) x00) (init (1 / 2)))
      = Ok (final, outs).
Proof.
  assert (Hlen : len (replicate (Z.to_nat 1000001) x00) = 1000001)
    by (unfold len; rewrite length_replicate; lia).
  split; [exact Hlen|].
  destruct (segment_size_bound (1 / 2) (replicate (Z.to_nat 1000001) x00)
              [GetNextPacket 0; GetNextPacket 1])
    as (final & outs & Hrun & _ & Hbig).
  split; [exact (proj1 (Hbig Hlen))|].
  exists final, outs. exact Hrun.
Defined.

End TransferFacts.

(** * Further properties of the code *)

(** ** The packet codec: errors, round trip, what validation checks *)

Section CodecMore.
Import InternetChecksum PacketStructure Wire.

Lemma validate_cons7 (b0 b1 b2 b3 b4 b5 b6 : byte) (rest : bytes) :
  fst (validate_packet (b0 :: b1 :: b2 :: b3 :: b4 :: b5 :: b6 :: rest)) = true
  <-> len rest = unpack_H b3 b4
      ∧ calculate (b0 :: b1 :: b2 :: b3 :: b4 :: x00 :: x00 :: rest) = Ok (unpack_H b5 b6).
Proof.
  unfold validate_packet. rewrite validate_try_long, len_cons7. unfold PACKET_HEADER_SIZE.
  destruct (calculate_ok (b0 :: b1 :: b2 :: b3 :: b4 :: x00 :: x00 :: rest))
    as (c & Hc & _).
  rewrite Hc. cbn [mbind result_bind].
  destruct (decide (7 + len rest ≠ 7 + unpack_H b3 b4)) as [Hm|Hm].
  - cbn. split; [discriminate|]. intros [Hl _]. lia.
  - destruct (decide (c ≠ unpack_H b5 b6)) as [Hne|Heq]; cbn.
    + split; [discriminate|]. intros [_ [= Hcc]]. contradiction.
    + split; [|reflexivity]. intros _. split; [lia|].
      f_equal. destruct (decide (c = unpack_H b5 b6)); tauto.
Qed.

Lemma validate_reason_empty (packet : bytes) :
  fst (validate_packet packet) = true -> validate_packet packet = (true, EmptyString).
Proof.
  destruct (short_or_split packet) as [H | (b0&b1&b2&b3&b4&b5&b6&rest&->)].
  - unfold validate_packet. rewrite validate_try_short by exact H. cbn. discriminate.
  - intros Hv. apply validate_cons7 in Hv as [Hl Hc].
    unfold validate_packet. rewrite validate_try_long, len_cons7, Hc.
    unfold PACKET_HEADER_SIZE. cbn [mbind result_bind].
    destruct (decide _) as [Hm|_]; [lia|].
    destruct (decide _) as [Hm|_]; [congruence|reflexivity].
Qed.

(** X1: [create_packet] raises exactly when the payload is longer than 1000
    bytes, and then it is [ValueError] with the sizes in its message;
    otherwise the packet it returns is seven bytes longer than the payload,
    so never longer than [MAX_SEGMENT_SIZE]. *)
Theorem create_packet_size (seq_num ack_num flags : Z) (data : bytes) :
  match create_packet seq_num ack_num flags data with
  | Ok packet =>
      len data <= MAX_PAYLOAD_SIZE ∧ len packet = PACKET_HEADER_SIZE + len data
      ∧ len packet <= MAX_SEGMENT_SIZE ∧ drop 7 packet = data
  | Raise e =>
      len data > MAX_PAYLOAD_SIZE
      ∧ e = ValueError ("Payload size " +:+ pretty (len data)
                        +:+ " exceeds maximum 1000")
  end.
Proof.
  unfold MAX_SEGMENT_SIZE, MAX_PAYLOAD_SIZE, PACKET_HEADER_SIZE.
  destruct (decide (len data > 1000)) as [Hbig|Hok].
  - unfold create_packet, MAX_PAYLOAD_SIZE.
    destruct (decide _) as [_|Hn]; [|contradiction]. split; [exact Hbig|reflexivity].
  - destruct (create_packet_ok seq_num ack_num flags data) as (c & _ & _ & ->); [lia|].
    unfold header_bytes. cbn [app]. rewrite len_cons7.
    repeat split; lia.
Qed.

(** X2: decoding what [create_packet] encoded gives back the payload, its
    length, and the three one-byte fields reduced modulo 256 (so unchanged
    when they are in 0..255); the checksum field it reads is the checksum
    of the packet with that field zeroed. *)
Theorem parse_create_round_trip (seq_num ack_num flags : Z) (data : bytes) :
  len data <= 1000 ->
  ∃ packet checksum,
    create_packet seq_num ack_num flags data = Ok packet
    ∧ parse_packet packet
      = Ok (seq_num `mod` 256, ack_num `mod` 256, flags `mod` 256,
            len data, data, checksum)
    ∧ calculate (checksum_zeroed packet) = Ok checksum
    ∧ (0 <= seq_num <= 255 -> seq_num `mod` 256 = seq_num).
Proof.
  intros Hlen.
  destruct (create_packet_ok seq_num ack_num flags data Hlen)
    as (c & Hcalc & Hc & Hcreate).
  eexists _, c. split; [exact Hcreate|].
  rewrite parse_created, !land_FF by assumption.
  split; [reflexivity|]. split; [exact Hcalc|]. intros H. lia.
Qed.

Lemma parse_create_round_trip_witness :
  len ["H"; "i"]%byte <= 1000
  ∧ ∃ packet checksum,
      create_packet 1 0 Flags.DATA ["H"; "i"]%byte = Ok packet
      ∧ parse_packet packet
        = Ok (1 `mod` 256, 0 `mod` 256, Flags.DATA `mod` 256,
              len ["H"; "i"]%byte, ["H"; "i"]%byte, checksum)
      ∧ calculate (checksum_zeroed packet) = Ok checksum
      ∧ (0 <= 1 <= 255 -> 1 `mod` 256 = 1).
Proof.
  assert (H : len ["H"; "i"]%byte <= 1000) by (vm_compute; discriminate).
  split; [exact H|]. apply (parse_create_round_trip 1 0 Flags.DATA ["H"; "i"]%byte H).
Defined.

(** X3: what [validate_packet] accepts: exactly the buffers of at least
    seven bytes whose length field counts the bytes after the header and
    whose checksum field holds the checksum of the buffer with that field
    zeroed, which is what [InternetChecksum.verify] tests; the reason it
    gives on acceptance is the empty string. *)
Theorem validate_packet_accepts (packet : bytes) :
  (fst (validate_packet packet) = true
   <-> 7 <= len packet
       ∧ len packet = 7 + length_field packet
       ∧ verify (checksum_zeroed packet) (checksum_field packet) = Ok true)
  ∧ (fst (validate_packet packet) = true <-> validate_packet packet = (true, EmptyString)).
Proof.
  split.
  - destruct (short_or_split packet) as [H | (b0&b1&b2&b3&b4&b5&b6&rest&->)].
    + unfold validate_packet. rewrite validate_try_short by exact H. cbn.
      split; [discriminate|]. intros [H7 _]. lia.
    + rewrite validate_cons7, len_cons7, length_field_cons7, checksum_field_cons7.
      change (checksum_zeroed _) with (b0 :: b1 :: b2 :: b3 :: b4 :: x00 :: x00 :: rest).
      unfold verify.
      destruct (calculate_ok (b0 :: b1 :: b2 :: b3 :: b4 :: x00 :: x00 :: rest))
        as (c & -> & _).
      cbn [mbind result_bind mret result_ret]. pose proof (len_nonneg rest).
      split.
      * intros [Hl [= ->]]. rewrite bool_decide_eq_true_2 by reflexivity.
        repeat split; lia.
      * intros (_ & Hl & [= Hc]). apply bool_decide_eq_true_1 in Hc.
        split; [lia|congruence].
  - split; [apply validate_reason_empty|]. intros ->. reflexivity.
Qed.

End CodecMore.

(** ** The checksum: what it detects and what it cannot *)

Section DetectionFacts.
Import InternetChecksum PacketStructure Wire.

Local Abbreviation word_sum l :=
  (Reference.sum_of (Reference.be_words (Reference.pad_even l))).

(** The checksum depends on the buffer through its word sum only. *)
Lemma calculate_word_sum (l k : bytes) :
  word_sum l = word_sum k -> calculate l = calculate k.
Proof.
  intros Hsum.
  destruct (calculate_unfold l) as (fl & Hl & -> & _).
  destruct (calculate_unfold k) as (fk & Hk & -> & _).
  cbn zeta in Hl, Hk. rewrite Hsum in Hl.
  rewrite (carry_loop_det _ _ _ Hl Hk). reflexivity.
Qed.

(** A flipped byte is another byte. *)
Lemma flipped_byte_differs (b : byte) (bit : Z) :
  0 <= bit <= 7 ->
  byte_val (byte_of_Z (Z.lxor (byte_val b) (Z.shiftl 1 bit))) ≠ byte_val b.
Proof.
  intros Hbit.
  pose proof (flip_byte_value (byte_val b) bit (byte_val_range b) Hbit) as (Hr & Hne & _).
  rewrite byte_val_of_Z by exact Hr. exact Hne.
Qed.

(** X4: a packet that [validate_packet] accepts is rejected once any single
    bit of it is flipped, wherever the bit lies: in the sequence, ack or
    flags byte, in the length field, in the checksum field or in the
    payload. *)
Theorem single_bit_flip_rejected (packet : bytes) (pos bit : Z) :
  fst (validate_packet packet) = true ->
  0 <= pos < len packet -> 0 <= bit <= 7 ->
  bit_distance packet (flip_bit pos bit packet) = 1%nat
  ∧ fst (validate_packet (flip_bit pos bit packet)) = false.
Proof.
  intros Hvalid Hpos Hbit.
  split; [apply bit_distance_flip_bit; assumption|].
  apply not_true_is_false. intros Hflip.
  destruct (short_or_split packet) as [H | (b0&b1&b2&b3&b4&b5&b6&rest&->)].
  { unfold validate_packet in Hvalid. rewrite validate_try_short in Hvalid by exact H.
    discriminate. }
  apply validate_cons7 in Hvalid as [Hl Hc].
  pose proof (fun b => flipped_byte_differs b bit Hbit) as Hne.
  pose proof (byte_val_range b3). pose proof (byte_val_range b4).
  pose proof (byte_val_range b5). pose proof (byte_val_range b6).
  set (f := fun b => byte_of_Z (Z.lxor (byte_val b) (Z.shiftl 1 bit))) in *.
  destruct (decide (7 <= pos)) as [Hpayload|Hheader].
  - rewrite flip_bit_cons7 in Hflip by lia.
    apply validate_cons7 in Hflip as [_ Hc'].
    rewrite len_cons7 in Hpos.
    pose proof (calculate_flip_bit
                  (b0 :: b1 :: b2 :: b3 :: b4 :: x00 :: x00 :: rest) pos bit) as Hdiff.
    rewrite len_cons7, flip_bit_cons7 in Hdiff by lia.
    apply Hdiff; [lia|exact Hbit|congruence].
  - assert (Hcase : pos = 0 ∨ pos = 1 ∨ pos = 2 ∨ pos = 3 ∨ pos = 4 ∨ pos = 5
                    ∨ pos = 6) by lia.
    pose proof (calculate_flip_bit
                  (b0 :: b1 :: b2 :: b3 :: b4 :: x00 :: x00 :: rest) pos bit) as Hdiff.
    rewrite len_cons7 in Hdiff. pose proof (len_nonneg rest) as Hnn.
    specialize (Hdiff ltac:(lia) Hbit).
    destruct Hcase as [-> | [-> | [-> | [-> | [-> | [-> | ->]]]]]].
    + change (flip_bit 0 bit (b0 :: ?l)) with (f b0 :: l) in *.
      apply validate_cons7 in Hflip as [_ Hc']. congruence.
    + change (flip_bit 1 bit (b0 :: b1 :: ?l)) with (b0 :: f b1 :: l) in *.
      apply validate_cons7 in Hflip as [_ Hc']. congruence.
    + change (flip_bit 2 bit (b0 :: b1 :: b2 :: ?l)) with (b0 :: b1 :: f b2 :: l) in *.
      apply validate_cons7 in Hflip as [_ Hc']. congruence.
    + change (flip_bit 3 bit (b0 :: b1 :: b2 :: b3 :: ?l))
        with (b0 :: b1 :: b2 :: f b3 :: l) in Hflip.
      apply validate_cons7 in Hflip as [Hl' _].
      rewrite unpack_H_val in Hl, Hl'. specialize (Hne b3). fold (f b3) in Hne. lia.
    + change (flip_bit 4 bit (b0 :: b1 :: b2 :: b3 :: b4 :: ?l))
        with (b0 :: b1 :: b2 :: b3 :: f b4 :: l) in Hflip.
      apply validate_cons7 in Hflip as [Hl' _].
      rewrite unpack_H_val in Hl, Hl'. specialize (Hne b4). fold (f b4) in Hne. lia.
    + change (flip_bit 5 bit (b0 :: b1 :: b2 :: b3 :: b4 :: b5 :: ?l))
        with (b0 :: b1 :: b2 :: b3 :: b4 :: f b5 :: l) in Hflip.
      apply validate_cons7 in Hflip as [_ Hc'].
      rewrite Hc in Hc'. injection Hc' as Hc'.
      rewrite !unpack_H_val in Hc'. specialize (Hne b5). fold (f b5) in Hne. lia.
    + change (flip_bit 6 bit (b0 :: b1 :: b2 :: b3 :: b4 :: b5 :: b6 :: ?l))
        with (b0 :: b1 :: b2 :: b3 :: b4 :: b5 :: f b6 :: l) in Hflip.
      apply validate_cons7 in Hflip as [_ Hc'].
      rewrite Hc in Hc'. injection Hc' as Hc'.
      rewrite !unpack_H_val in Hc'. specialize (Hne b6). fold (f b6) in Hne. lia.
Qed.

Local Abbreviation hello_packet :=
  (["000"; "000"; "008"; "000"; "003"; "143"; "K"; "H"; "e"; "l"]%byte).

Lemma single_bit_flip_rejected_witness :
  fst (validate_packet hello_packet) = true
  ∧ 0 <= 4 < len hello_packet ∧ 0 <= 7 <= 7
  ∧ bit_distance hello_packet (flip_bit 4 7 hello_packet) = 1%nat
  ∧ fst (validate_packet (flip_bit 4 7 hello_packet)) = false.
Proof.
  assert (Hv : fst (validate_packet hello_packet) = true) by (vm_compute; reflexivity).
  assert (Hp : 0 <= 4 < len hello_packet) by (unfold len; cbn [length]; lia).
  assert (Hb : 0 <= 7 <= 7) by lia.
  split; [exact Hv|]. split; [exact Hp|]. split; [exact Hb|].
  apply (single_bit_flip_rejected hello_packet 4 7 Hv Hp Hb).
Defined.

End DetectionFacts.

Section BlindSpotFacts.
Import InternetChecksum PacketStructure Wire.

Local Abbreviation word_sum l :=
  (Reference.sum_of (Reference.be_words (Reference.pad_even l))).

Lemma insert_cons7 (n : nat) (x c0 c1 c2 c3 c4 c5 c6 : byte) (rest : bytes) :
  (7 <= n)%nat ->
  <[n:=x]> (c0 :: c1 :: c2 :: c3 :: c4 :: c5 :: c6 :: rest)
  = c0 :: c1 :: c2 :: c3 :: c4 :: c5 :: c6 :: <[(n - 7)%nat:=x]> rest.
Proof.
  intros Hn. replace n with (7 + (n - 7))%nat at 1 by lia. reflexivity.
Qed.

Lemma lookup_cons7 (n : nat) (c0 c1 c2 c3 c4 c5 c6 : byte) (rest : bytes) :
  (7 <= n)%nat ->
  (c0 :: c1 :: c2 :: c3 :: c4 :: c5 :: c6 :: rest) !! n = rest !! (n - 7)%nat.
Proof.
  intros Hn. replace n with (7 + (n - 7))%nat at 1 by lia. reflexivity.
Qed.

(** Exchanging two bytes that sit at the same place of their 16-bit words
    leaves the word sum as it was. *)
Lemma word_sum_swap (l : bytes) (i j : nat) (a b : byte) :
  l !! i = Some a -> l !! j = Some b -> Nat.even i = Nat.even j ->
  word_sum (<[j:=a]> (<[i:=b]> l)) = word_sum l.
Proof.
  intros Hi Hj Hpar.
  assert (Hj' : <[i:=b]> l !! j = Some b).
  { destruct (decide (i = j)) as [->|Hne].
    - apply list_lookup_insert_eq. apply lookup_lt_Some in Hj. exact Hj.
    - rewrite list_lookup_insert_ne by exact Hne. exact Hj. }
  rewrite (word_sum_insert _ j b a Hj'), (word_sum_insert l i a b Hi), Hpar.
  destruct (Nat.even j); lia.
Qed.

(** X5: the checksum cannot see two payload bytes change places when both
    are high bytes or both are low bytes of their 16-bit words (offsets of
    the same parity): the packet with the two bytes exchanged is accepted
    by [validate_packet] like the original, although it is another packet
    whenever the two bytes differ. *)
Theorem same_parity_swap_accepted (packet : bytes) (i j : nat) :
  fst (validate_packet packet) = true ->
  (7 <= i < length packet)%nat -> (7 <= j < length packet)%nat ->
  Nat.even i = Nat.even j ->
  validate_packet (swap_bytes i j packet) = (true, EmptyString)
  ∧ (packet !! i ≠ packet !! j -> swap_bytes i j packet ≠ packet).
Proof.
  intros Hvalid Hi Hj Hpar.
  destruct (lookup_lt_is_Some_2 packet i) as [a Ha]; [lia|].
  destruct (lookup_lt_is_Some_2 packet j) as [b Hb]; [lia|].
  unfold swap_bytes. rewrite Ha, Hb. split.
  - apply validate_reason_empty.
    destruct (short_or_split packet) as [H | (b0&b1&b2&b3&b4&b5&b6&rest&->)];
      [unfold len in H; lia|].
    apply validate_cons7 in Hvalid as [Hl Hc].
    rewrite !insert_cons7 by lia. apply validate_cons7.
    rewrite !len_insert. split; [exact Hl|].
    rewrite <- Hc.
    rewrite <- (insert_cons7 j a b0 b1 b2 b3 b4 x00 x00) by lia.
    rewrite <- (insert_cons7 i b b0 b1 b2 b3 b4 x00 x00 rest) by lia.
    apply calculate_word_sum, word_sum_swap; [| |exact Hpar].
    + rewrite lookup_cons7 in Ha |- * by lia. exact Ha.
    + rewrite lookup_cons7 in Hb |- * by lia. exact Hb.
  - intros Hne Heq. apply Hne.
    assert (Hlook : <[j:=a]> (<[i:=b]> packet) !! j = Some a).
    { apply list_lookup_insert_eq. rewrite length_insert. lia. }
    rewrite Heq, Hb in Hlook. congruence.
Qed.

Local Abbreviation hello_packet :=
  (["000"; "000"; "008"; "000"; "003"; "143"; "K"; "H"; "e"; "l"]%byte).

Lemma same_parity_swap_accepted_witness :
  fst (validate_packet hello_packet) = true
  ∧ (7 <= 7 < length hello_packet)%nat ∧ (7 <= 9 < length hello_packet)%nat
  ∧ Nat.even 7 = Nat.even 9
  ∧ validate_packet (swap_bytes 7 9 hello_packet) = (true, EmptyString)
  ∧ (hello_packet !! 7%nat ≠ hello_packet !! 9%nat ->
     swap_bytes 7 9 hello_packet ≠ hello_packet).
Proof.
  assert (Hv : fst (validate_packet hello_packet) = true) by (vm_compute; reflexivity).
  assert (Hi : (7 <= 7 < length hello_packet)%nat) by (cbn [length]; lia).
  assert (Hj : (7 <= 9 < length hello_packet)%nat) by (cbn [length]; lia).
  assert (Hp : Nat.even 7 = Nat.even 9) by reflexivity.
  split; [exact Hv|]. split; [exact Hi|]. split; [exact Hj|]. split; [exact Hp|].
  apply (same_parity_swap_accepted hello_packet 7 9 Hv Hi Hj Hp).
Defined.

Lemma even_len (l : bytes) : len l `mod` 2 = 0 <-> Nat.even (length l) = true.
Proof.
  unfold len. rewrite Nat.even_spec. split.
  - intros H. exists (Z.to_nat (Z.of_nat (length l) `div` 2)). lia.
  - intros [k Hk]. lia.
Qed.

Lemma pad_even_even (l : bytes) : Nat.even (length l) = true -> Reference.pad_even l = l.
Proof. intros H. unfold Reference.pad_even. rewrite H. reflexivity. Qed.

Lemma be_words_app (l k : bytes) :
  Nat.even (length l) = true ->
  Reference.be_words (l ++ k) = Reference.be_words l ++ Reference.be_words k.
Proof.
  induction l as [| a | a b l IH] using list_pair_ind; intros Hl.
  - reflexivity.
  - discriminate.
  - cbn [app Reference.be_words]. rewrite IH by exact Hl. reflexivity.
Qed.

Lemma sum_of_app (ws vs : list Z) :
  Reference.sum_of (ws ++ vs) = Reference.sum_of ws + Reference.sum_of vs.
Proof.
  unfold Reference.sum_of. induction ws as [|w ws IH]; cbn; [reflexivity|]. lia.
Qed.

(** The word sum of an even-length buffer followed by one more word. *)
Lemma word_sum_snoc_word (l : bytes) (hi lo : byte) :
  Nat.even (length l) = true ->
  word_sum (l ++ [hi; lo]) = word_sum l + (256 * byte_val hi + byte_val lo).
Proof.
  intros Hl.
  rewrite (pad_even_even l Hl), pad_even_even, be_words_app, sum_of_app by
    (try exact Hl; rewrite length_app; cbn [length];
     apply Nat.even_spec; apply Nat.even_spec in Hl as [n Hn]; exists (S n); lia).
  cbn. lia.
Qed.

(** X6: a buffer of even length followed by its own checksum, packed as
    [struct.pack] packs an ['H'] field, has checksum zero. *)
Theorem checksum_of_checksummed (data ck : bytes) (c : Z) :
  len data `mod` 2 = 0 -> calculate data = Ok c -> pack_H c = Ok ck ->
  calculate (data ++ ck) = Ok 0 ∧ verify (data ++ ck) 0 = Ok true.
Proof.
  intros Heven Hc Hpack. apply even_len in Heven.
  destruct (calculate_unfold data) as (f & Hloop & Hcalc & _).
  rewrite Hcalc in Hc. injection Hc as <-.
  pose proof (sum_of_be_words_nonneg (Reference.pad_even data)) as Hs.
  apply carry_loop_spec in Hloop as (Hf & Hmod & Hzero); [|exact Hs].
  rewrite pack_H_ok in Hpack by lia. injection Hpack as <-.
  assert (Hcalc' : calculate (data ++ [byte_of_Z (Z.shiftr (65535 - f) 8);
                                        byte_of_Z (Z.land (65535 - f) 255)]) = Ok 0).
  { destruct (calculate_unfold (data ++ [byte_of_Z (Z.shiftr (65535 - f) 8);
                                          byte_of_Z (Z.land (65535 - f) 255)]))
      as (f' & Hloop' & -> & _).
    cbn zeta in Hloop'. rewrite word_sum_snoc_word in Hloop' by exact Heven.
    rewrite <- unpack_H_val, unpack_pack_H in Hloop' by lia.
    apply carry_loop_spec in Hloop' as (Hf' & Hmod' & Hzero'); [|lia].
    f_equal. lia. }
  split; [exact Hcalc'|]. unfold verify. rewrite Hcalc'. reflexivity.
Qed.

Lemma checksum_of_checksummed_witness :
  len ["H"; "i"]%byte `mod` 2 = 0
  ∧ calculate ["H"; "i"]%byte = Ok 46998
  ∧ pack_H 46998 = Ok [byte_of_Z (Z.shiftr 46998 8); byte_of_Z (Z.land 46998 255)]
  ∧ calculate (["H"; "i"]%byte ++ [byte_of_Z (Z.shiftr 46998 8);
                                   byte_of_Z (Z.land 46998 255)]) = Ok 0
  ∧ verify (["H"; "i"]%byte ++ [byte_of_Z (Z.shiftr 46998 8);
                                byte_of_Z (Z.land 46998 255)]) 0 = Ok true.
Proof.
  assert (He : len ["H"; "i"]%byte `mod` 2 = 0) by reflexivity.
  assert (Hc : calculate ["H"; "i"]%byte = Ok 46998) by (vm_compute; reflexivity).
  assert (Hp : pack_H 46998
               = Ok [byte_of_Z (Z.shiftr 46998 8); byte_of_Z (Z.land 46998 255)])
    by reflexivity.
  split; [exact He|]. split; [exact Hc|]. split; [exact Hp|].
  apply (checksum_of_checksummed ["H"; "i"]%byte _ 46998 He Hc Hp).
Defined.

End BlindSpotFacts.

Section ZeroByteFacts.
Import InternetChecksum Wire.

Local Abbreviation word_sum l :=
  (Reference.sum_of (Reference.be_words (Reference.pad_even l))).

Lemma word_sum_snoc_zero (data : bytes) : word_sum (data ++ [x00]) = word_sum data.
Proof.
  destruct (Nat.even (length data)) eqn:E.
  - assert (Hpad : Reference.pad_even (data ++ [x00]) = data ++ [x00; x00]).
    { unfold Reference.pad_even. rewrite length_app. cbn [length].
      replace (length data + 1)%nat with (S (length data)) by lia.
      rewrite Nat.even_succ, <- Nat.negb_even, E. cbn [negb].
      rewrite <- app_assoc. reflexivity. }
    rewrite Hpad, (pad_even_even data E), be_words_app, sum_of_app by exact E.
    cbn. lia.
  - assert (Hpad : Reference.pad_even (data ++ [x00]) = data ++ [x00]).
    { apply pad_even_even. rewrite length_app. cbn [length].
      replace (length data + 1)%nat with (S (length data)) by lia.
      rewrite Nat.even_succ, <- Nat.negb_even, E. reflexivity. }
    rewrite Hpad. unfold Reference.pad_even. rewrite E. reflexivity.
Qed.

(** X7: zero bytes at the end of a buffer are invisible to the checksum:
    a buffer and the same buffer with any number of zero bytes appended
    have the same checksum. *)
Theorem trailing_zeros_invisible (data : bytes) (n : nat) :
  calculate (data ++ replicate n x00) = calculate data.
Proof.
  induction n as [|n IH].
  - cbn [replicate]. rewrite app_nil_r. reflexivity.
  - rewrite <- IH. replace (S n) with (n + 1)%nat by lia.
    rewrite replicate_add, app_assoc. cbn [replicate].
    apply calculate_word_sum, word_sum_snoc_zero.
Qed.

Lemma byte_val_zero (b : byte) : byte_val b = 0 <-> b = x00.
Proof.
  split; [|intros ->; reflexivity].
  intros H. rewrite <- (byte_of_Z_val b), H. reflexivity.
Qed.

Lemma word_sum_zero (data : bytes) :
  word_sum data = 0 <-> Forall (fun b => b = x00) data.
Proof.
  induction data as [| a | a b l IH] using list_pair_ind.
  - split; [constructor|reflexivity].
  - cbn. pose proof (byte_val_range a). rewrite Forall_singleton, <- byte_val_zero. lia.
  - rewrite pad_even_cons2. cbn [Reference.be_words Reference.sum_of foldr].
    pose proof (byte_val_range a). pose proof (byte_val_range b).
    pose proof (sum_of_be_words_nonneg (Reference.pad_even l)) as Hl.
    unfold Reference.sum_of in IH, Hl.
    rewrite !Forall_cons, <- IH, <- !byte_val_zero. lia.
Qed.

(** X8: the checksum is 0xFFFF exactly for the buffers that hold nothing
    but zero bytes (the empty buffer among them), and it is 0 exactly when
    the 16-bit words add up to a positive multiple of 65535. *)
Theorem calculate_extremes (data : bytes) :
  (calculate data = Ok 65535 <-> Forall (fun b => b = x00) data)
  ∧ (calculate data = Ok 0
     <-> 0 < word_sum data ∧ word_sum data `mod` 65535 = 0).
Proof.
  destruct (calculate_unfold data) as (f & Hloop & -> & _).
  pose proof (sum_of_be_words_nonneg (Reference.pad_even data)) as Hs.
  apply carry_loop_spec in Hloop as (Hf & Hmod & Hzero); [|exact Hs].
  rewrite <- word_sum_zero. split; split.
  - intros [= H]. lia.
  - intros H. f_equal. lia.
  - intros [= H]. lia.
  - intros H. f_equal. lia.
Qed.

End ZeroByteFacts.

(** ** The sequence number manager for any modulo *)

Section SequenceMore.
Import SequenceNumberManager.

Lemma mod_pred_succ (s N : Z) : 0 <= s < N -> ((s + 1) `mod` N - 1) `mod` N = s.
Proof.
  intros Hs. destruct (decide (s + 1 < N)) as [Hlt|Hge].
  - rewrite (Z.mod_small (s + 1)) by lia. replace (s + 1 - 1) with s by lia.
    apply Z.mod_small. lia.
  - replace (s + 1) with N by lia. rewrite Z_mod_same_full.
    replace (0 - 1) with (N - 1 + (-1) * N) by lia.
    rewrite Z_mod_plus_full, Z.mod_small by lia. lia.
Qed.

Lemma reachable_range (N : Z) (self : t) :
  0 < N -> reachable N self -> modulo self = N ∧ 0 <= seq_num self < N.
Proof.
  intros HN. induction 1 as [| self self' _ [Hm Hs] Hinc | self _ [Hm Hs]].
  - cbn. lia.
  - unfold increment, py_mod in Hinc. rewrite Hm in Hinc.
    destruct (decide (N = 0)) as [|_]; [lia|].
    cbn in Hinc. injection Hinc as <-. cbn. split; [reflexivity|].
    apply Z.mod_pos_bound. lia.
  - cbn. lia.
Qed.

(** X9: for every positive modulo the sequence number stays in
    [0, modulo) in every state reached by [increment] and [reset], and
    neither [increment] nor [is_duplicate] raises there. *)
Theorem sequence_number_in_range (N : Z) (self : t) (received : Z) :
  0 < N -> reachable N self ->
  modulo self = N ∧ 0 <= get_current self < N
  ∧ (∃ self', increment self = Ok self' ∧ reachable N self')
  ∧ ∃ dup, is_duplicate self received = Ok dup.
Proof.
  intros HN Hreach. destruct (reachable_range N self HN Hreach) as [Hm Hs].
  split; [exact Hm|]. split; [exact Hs|]. split.
  - assert (Hinc : ∃ self', increment self = Ok self').
    { unfold increment, py_mod. rewrite Hm.
      destruct (decide (N = 0)) as [|_]; [lia|]. cbn. eauto. }
    destruct Hinc as [self' Hinc]. exists self'. split; [exact Hinc|].
    apply (reach_increment N self); assumption.
  - unfold is_duplicate, py_mod. rewrite Hm.
    destruct (decide (N = 0)) as [|_]; [lia|]. cbn. eauto.
Qed.

Lemma sequence_number_in_range_witness :
  0 < 5 ∧ reachable 5 (mk 5 1)
  ∧ modulo (mk 5 1) = 5 ∧ 0 <= get_current (mk 5 1) < 5
  ∧ (∃ self', increment (mk 5 1) = Ok self' ∧ reachable 5 self')
  ∧ ∃ dup, is_duplicate (mk 5 1) 0 = Ok dup.
Proof.
  assert (HN : 0 < 5) by lia.
  assert (Hreach : reachable 5 (mk 5 1)).
  { apply (reach_increment 5 (init 5)); [apply reach_init|reflexivity]. }
  split; [exact HN|]. split; [exact Hreach|].
  apply (sequence_number_in_range 5 (mk 5 1) 0 HN Hreach).
Defined.

(** X10: with a modulo of at least 2, right after [increment] the value
    held before is recognised as the duplicate and not as the expected
    one, and the new value as the expected one and not as a duplicate. *)
Theorem increment_marks_previous_duplicate (N : Z) (self self' : t) :
  2 <= N -> reachable N self -> increment self = Ok self' ->
  is_duplicate self' (get_current self) = Ok true
  ∧ is_expected self' (get_current self) = false
  ∧ is_expected self' (get_current self') = true
  ∧ is_duplicate self' (get_current self') = Ok false.
Proof.
  intros HN Hreach Hinc.
  destruct (reachable_range N self ltac:(lia) Hreach) as [Hm Hs].
  unfold increment, py_mod in Hinc. rewrite Hm in Hinc.
  destruct (decide (N = 0)) as [|_]; [lia|].
  cbn in Hinc. injection Hinc as <-.
  unfold is_duplicate, is_expected, get_current, py_mod. cbn [modulo seq_num].
  rewrite ?Hm.
  destruct (decide (N = 0)) as [|_]; [lia|].
  cbn [mbind result_bind mret result_ret].
  rewrite (mod_pred_succ (seq_num self) N Hs).
  assert (Hne : (seq_num self + 1) `mod` N ≠ seq_num self).
  { destruct (decide (seq_num self + 1 < N)) as [Hlt|Hge].
    - rewrite Z.mod_small by lia. lia.
    - replace (seq_num self + 1) with N by lia. rewrite Z_mod_same_full. lia. }
  rewrite bool_decide_eq_true_2 by reflexivity.
  rewrite bool_decide_eq_false_2 by congruence.
  rewrite bool_decide_eq_true_2 by reflexivity.
  rewrite bool_decide_eq_false_2 by congruence.
  auto.
Qed.

Lemma increment_marks_previous_duplicate_witness :
  2 <= 3 ∧ reachable 3 (init 3) ∧ increment (init 3) = Ok (mk 3 1)
  ∧ is_duplicate (mk 3 1) (get_current (init 3)) = Ok true
  ∧ is_expected (mk 3 1) (get_current (init 3)) = false
  ∧ is_expected (mk 3 1) (get_current (mk 3 1)) = true
  ∧ is_duplicate (mk 3 1) (get_current (mk 3 1)) = Ok false.
Proof.
  assert (HN : 2 <= 3) by lia.
  assert (Hinc : increment (init 3) = Ok (mk 3 1)) by reflexivity.
  split; [exact HN|]. split; [apply reach_init|]. split; [exact Hinc|].
  apply (increment_marks_previous_duplicate 3 (init 3) (mk 3 1) HN (reach_init 3) Hinc).
Defined.

(** X11: [k] calls of [increment] advance the sequence number by [k]
    modulo the modulo, so as many calls as the modulo bring it back to
    where it was. *)
Theorem increments_wrap_around (N : Z) (k : nat) (self : t) :
  0 < N -> reachable N self ->
  increments k self = Ok (mk N ((seq_num self + Z.of_nat k) `mod` N))
  ∧ increments (Z.to_nat N) self = Ok self.
Proof.
  intros HN Hreach.
  assert (Hgen : ∀ k s, 0 <= s < N ->
            increments k (mk N s) = Ok (mk N ((s + Z.of_nat k) `mod` N))).
  { clear k self Hreach. induction k as [|k IH]; intros s Hs.
    - cbn [increments]. rewrite Z.add_0_r, Z.mod_small by lia. reflexivity.
    - cbn [increments]. unfold increment, py_mod. cbn [modulo seq_num].
      destruct (decide (N = 0)) as [|_]; [lia|].
      cbn [mbind result_bind mret result_ret].
      rewrite IH by (apply Z.mod_pos_bound; lia).
      rewrite Zplus_mod_idemp_l. do 2 f_equal. f_equal. lia. }
  destruct (reachable_range N self HN Hreach) as [Hm Hs].
  destruct self as [m s]. cbn [modulo seq_num] in *. subst m.
  split; [apply Hgen; exact Hs|].
  rewrite Hgen by exact Hs. rewrite Z2Nat.id by lia.
  replace (s + N) with (s + 1 * N) by lia.
  rewrite Z_mod_plus_full, Z.mod_small by lia. reflexivity.
Qed.

Lemma increments_wrap_around_witness :
  0 < 2 ∧ reachable 2 (init 2)
  ∧ increments 3 (init 2) = Ok (mk 2 ((seq_num (init 2) + Z.of_nat 3) `mod` 2))
  ∧ increments (Z.to_nat 2) (init 2) = Ok (init 2).
Proof.
  assert (HN : 0 < 2) by lia.
  split; [exact HN|]. split; [apply reach_init|].
  apply (increments_wrap_around 2 3 (init 2) HN (reach_init 2)).
Defined.

(** X12: the constructor accepts a modulo of 0 without complaint; such a
    manager never leaves sequence number 0, and every [increment] and every
    [is_duplicate] on it raises [ZeroDivisionError], while [is_expected]
    and [reset] still work. *)
Theorem zero_modulo_raises (self : t) (received : Z) :
  reachable 0 self ->
  self = init 0
  ∧ increment self = Raise (ZeroDivisionError "integer modulo by zero")
  ∧ is_duplicate self received = Raise (ZeroDivisionError "integer modulo by zero")
  ∧ is_expected self received = bool_decide (received = 0)
  ∧ reset self = self.
Proof.
  intros Hreach.
  assert (Hinit : self = init 0).
  { induction Hreach as [| self self' _ IH Hinc | self _ IH].
    - reflexivity.
    - subst self. discriminate.
    - subst self. reflexivity. }
  subst self. repeat split; reflexivity.
Qed.

Lemma zero_modulo_raises_witness :
  reachable 0 (reset (init 0))
  ∧ reset (init 0) = init 0
  ∧ increment (reset (init 0)) = Raise (ZeroDivisionError "integer modulo by zero")
  ∧ is_duplicate (reset (init 0)) 1 = Raise (ZeroDivisionError "integer modulo by zero")
  ∧ is_expected (reset (init 0)) 1 = bool_decide (1 = 0)
  ∧ reset (reset (init 0)) = reset (init 0).
Proof.
  assert (Hreach : reachable 0 (reset (init 0))) by (apply reach_reset, reach_init).
  split; [exact Hreach|].
  apply (zero_modulo_raises (reset (init 0)) 1 Hreach).
Defined.

End SequenceMore.

(** ** The timeout manager: clamping, steady samples, decay and back-off *)

Section TimeoutMore.
Import TimeoutManager.
Local Open Scope R_scope.

Lemma run_app (cs1 cs2 : list call) (self : t) :
  run (cs1 ++ cs2) self = run cs2 (run cs1 self).
Proof. unfold run. apply fold_left_app. Qed.

(** The first [record_rtt] of a history brings the timeout within the
    bounds, and every later call keeps it there. *)
Lemma first_record_bounds (cs : list call) :
  ∀ self,
    rtt_samples self = [] -> max_samples self = 50%Z ->
    min_timeout self = 1 / 10 -> max_timeout self = 30 ->
    Exists (fun c => ∃ rtt, c = RecordRtt rtt) cs ->
    1 / 10 <= current_timeout (run cs self) <= 30.
Proof.
  induction cs as [|c cs IH]; intros self Hempty Hcap Hmin Hmax Hex;
    [inversion Hex|].
  change (run (c :: cs) self) with (run cs (run_call c self)).
  destruct (run_call_frame c self) as (Hmin' & Hmax' & Hcap' & Hsamples).
  destruct c as [rtt| |].
  - apply run_bounds; [congruence|congruence|].
    cbn [run_call] in *.
    destruct (record_rtt_steady rtt self) as (_ & _ & Hfirst);
      [rewrite Hempty; constructor|].
    rewrite Hfirst, Hmin, Hmax.
    + unfold Reference.clamp, Rmax, Rmin. repeat destruct (Rle_dec _ _); lra.
    + rewrite Hsamples, Hempty, Hcap. discriminate.
  - apply IH; try congruence.
    inversion Hex as [? ? (rtt & Hc)|? ? Hrest]; subst; [discriminate|exact Hrest].
  - apply IH; try congruence.
    inversion Hex as [? ? (rtt & Hc)|? ? Hrest]; subst; [discriminate|exact Hrest].
Qed.

(** X13: although the constructor does not clamp its argument, one
    [record_rtt] does: whatever initial timeout the manager was built with
    and whatever calls came before, from the first [record_rtt] on the
    current timeout lies between 0.1 and 30 seconds after every call. *)
Theorem record_rtt_restores_bounds
    (initial_timeout rtt : R) (before after : list call) :
  let self := run (before ++ RecordRtt rtt :: after) (init initial_timeout) in
  1 / 10 <= get_timeout self <= 30.
Proof.
  intros self. unfold self, get_timeout.
  apply first_record_bounds; try reflexivity.
  apply Exists_app. right. apply Exists_cons_hd. eauto.
Qed.

(** X14: when every sample recorded so far is the same round-trip time,
    [record_rtt] of that time once more sets the timeout to that time
    itself, clamped to [0.1, 30]: with no variance there is no
    margin above the round-trip time. *)
Theorem steady_rtt_timeout (initial_timeout rtt : R) (cs : list call) :
  Forall (fun x => x = rtt) (recorded cs) ->
  get_timeout (fst (record_rtt rtt (run cs (init initial_timeout))))
  = Reference.clamp (1 / 10) 30 rtt.
Proof.
  intros Hsame.
  destruct (run_limits initial_timeout cs) as (Hmin & Hmax & Hcap).
  destruct (record_rtt_steady rtt (run cs (init initial_timeout)))
    as (Hreturns & _ & Hcur).
  { rewrite run_window. unfold Reference.most_recent. apply Forall_drop. exact Hsame. }
  unfold get_timeout. rewrite Hcur, Hmin, Hmax; [reflexivity|].
  destruct (run_call_frame (RecordRtt rtt) (run cs (init initial_timeout)))
    as (_ & _ & _ & Hsamples).
  cbn [run_call] in Hsamples. rewrite Hsamples, Hcap. clear Hsamples Hcur Hreturns.
  cbn zeta.
  destruct (decide _) as [Hfull|_]; intros Hnil; apply (f_equal length) in Hnil.
  - unfold len in Hfull. rewrite length_drop in Hnil. cbn [length] in Hnil. lia.
  - rewrite length_app in Hnil. cbn [length] in Hnil. lia.
Qed.

Lemma steady_rtt_timeout_witness :
  Forall (fun x => x = 2) (recorded [RecordRtt 2; OnRetransmission; RecordRtt 2])
  ∧ get_timeout (fst (record_rtt 2 (run [RecordRtt 2; OnRetransmission; RecordRtt 2]
                                        (init (1 / 2)))))
    = Reference.clamp (1 / 10) 30 2.
Proof.
  assert (H : Forall (fun x => x = 2)
                     (recorded [RecordRtt 2; OnRetransmission; RecordRtt 2])).
  { cbn. repeat constructor. }
  split; [exact H|].
  apply (steady_rtt_timeout (1 / 2) 2 [RecordRtt 2; OnRetransmission; RecordRtt 2] H).
Defined.

(** X15: [on_successful_ack] never leaves the timeout below 0.1, whatever
    it was; on a timeout of at least 0.1 it never raises it, lowers it
    exactly when it was above 0.1, and does not touch the samples. *)
Theorem successful_ack_decay (initial_timeout : R) (cs : list call) :
  let self := run cs (init initial_timeout) in
  let self' := on_successful_ack self in
  get_timeout self' = Rmax (get_timeout self * (9 / 10)) (1 / 10)
  ∧ 1 / 10 <= get_timeout self'
  ∧ (1 / 10 <= get_timeout self ->
     get_timeout self' <= get_timeout self
     ∧ (get_timeout self' < get_timeout self <-> 1 / 10 < get_timeout self))
  ∧ rtt_samples self' = rtt_samples self.
Proof.
  intros self self'.
  destruct (run_limits initial_timeout cs) as (Hmin & _ & _). fold self in Hmin.
  assert (Hval : get_timeout self' = Rmax (get_timeout self * (9 / 10)) (1 / 10)).
  { unfold self', on_successful_ack, get_timeout. cbn [current_timeout set_current_timeout].
    rewrite py_max_Rmax, Hmin. reflexivity. }
  split; [exact Hval|]. rewrite Hval. unfold Rmax.
  destruct (Rle_dec _ _); repeat split; intros; lra.
Qed.

(** X16: from a non-negative timeout, [k + 1] timeouts in a row leave the
    timeout at the starting value times 2 to the power [k + 1], capped at
    30 seconds: the back-off is exponential up to the cap. *)
Theorem backoff_closed_form (initial_timeout : R) (cs : list call) (k : nat) :
  let self := run cs (init initial_timeout) in
  0 <= get_timeout self ->
  get_timeout (run (replicate (S k) OnRetransmission) self)
  = Rmin (2 ^ S k * get_timeout self) 30.
Proof.
  intros self Hpos.
  destruct (run_limits initial_timeout cs) as (_ & Hmax & _). fold self in Hmax.
  revert Hpos Hmax. generalize self. clear self.
  induction k as [|k IH]; intros self Hpos Hmax.
  - cbn [replicate run fold_left run_call].
    destruct (backoff_step self (get_timeout self) (conj eq_refl Hmax)) as [-> _].
    f_equal. cbn. lra.
  - change (run (replicate (S (S k)) OnRetransmission) self)
      with (run (replicate (S k) OnRetransmission) (on_retransmission self)).
    destruct (backoff_step self (get_timeout self) (conj eq_refl Hmax)) as [Hval Hmax'].
    assert (Hpow : 1 <= 2 ^ S k) by (apply pow_R1_Rle; lra).
    rewrite IH; [|rewrite Hval; unfold Rmin; destruct (Rle_dec _ _); lra|exact Hmax'].
    rewrite Hval. replace (2 ^ S (S k)) with (2 ^ S k * 2) by (cbn; lra).
    unfold Rmin. repeat destruct (Rle_dec _ _); try lra; nra.
Qed.

Lemma backoff_closed_form_witness :
  0 <= get_timeout (run [] (init (1 / 2)))
  ∧ get_timeout (run (replicate 3 OnRetransmission) (run [] (init (1 / 2))))
    = Rmin (2 ^ 3 * get_timeout (run [] (init (1 / 2)))) 30.
Proof.
  assert (H : 0 <= get_timeout (run [] (init (1 / 2)))) by (cbn; lra).
  split; [exact H|]. apply (backoff_closed_form (1 / 2) [] 2 H).
Defined.

End TimeoutMore.

(** ** The network simulator *)

Section SimulatorFacts.
Import PacketStructure NetworkSimulator Wire.

(** Reduces the binds of [process_packet] and the fields of the simulator
    records it builds. *)
Ltac simplify_simulator :=
  cbv beta iota zeta delta
    [mbind result_bind mret result_ret set_counters loss_rate corruption_rate
     duplication_rate delay_range packets_sent packets_lost packets_corrupted
     packets_delayed].

(** What [_corrupt_packet] returns for draws in range. *)
Lemma corrupt_packet_result (packet : bytes) (pos_draw bit_draw : Z) :
  draws_for packet pos_draw bit_draw ->
  ∃ out,
    _corrupt_packet pos_draw bit_draw packet = Ok out
    ∧ ((len packet <= 7 ∧ out = packet)
       ∨ (len packet > 7 ∧ out = flip_bit pos_draw bit_draw packet))
    ∧ len out = len packet ∧ take 7 out = take 7 packet
    ∧ (bit_distance packet out <= 1)%nat.
Proof.
  intros Hdraws. destruct (decide (len packet > 7)) as [Hlong|Hshort].
  - destruct (Hdraws Hlong) as [Hpos Hbit]. unfold randint in Hpos, Hbit.
    exists (flip_bit pos_draw bit_draw packet).
    split; [apply corrupt_long; assumption|]. split; [right; auto|].
    split; [apply len_flip_bit|].
    split; [unfold flip_bit; apply take_alter_ge; lia|].
    rewrite bit_distance_flip_bit by lia. lia.
  - exists packet. split; [apply corrupt_short; lia|]. split; [left; split; [lia|auto]|].
    rewrite bit_distance_refl. auto.
Qed.

(** The outcome of one [process_packet] with draws in range. *)
Lemma process_packet_outcome (d : draws) (packet : bytes) (self : t) :
  draws_ok self packet d ->
  ∃ self' out slept,
    process_packet d packet self = Ok (self', out, slept)
    ∧ packets_sent self' = packets_sent self + 1
    ∧ loss_rate self' = loss_rate self ∧ corruption_rate self' = corruption_rate self
    ∧ duplication_rate self' = duplication_rate self
    ∧ delay_range self' = delay_range self
    ∧ (slept = 0 ∨ (0 < slept ∧ slept = delay_draw d))%R
    ∧ match out with
      | None =>
          (loss_draw d < loss_rate self)%R
          ∧ packets_lost self' = packets_lost self + 1
          ∧ packets_corrupted self' = packets_corrupted self
          ∧ packets_delayed self' = packets_delayed self
      | Some out_packet =>
          ¬ (loss_draw d < loss_rate self)%R
          ∧ packets_lost self' = packets_lost self
          ∧ (out_packet = packet
             ∨ (len packet > 7
                ∧ out_packet = flip_bit (corrupt_pos_draw d) (corrupt_bit_draw d) packet))
          ∧ len out_packet = len packet
          ∧ take 7 out_packet = take 7 packet
          ∧ (bit_distance packet out_packet <= 1)%nat
          ∧ packets_corrupted self <= packets_corrupted self'
             <= packets_corrupted self + 1
          ∧ packets_delayed self <= packets_delayed self'
             <= packets_delayed self + 1
      end.
Proof.
  intros (_ & _ & _ & Hdraws & _).
  destruct (corrupt_packet_result packet _ _ Hdraws)
    as (flipped & Hcorrupt & Hcases & Hlen & Htake & Hdist).
  destruct self as [lr cr dr range sent lost corrupted delayed].
  unfold process_packet. simplify_simulator.
  destruct (Rlt_dec (loss_draw d) lr) as [Hloss|Hkeep].
  { eexists _, None, _. split; [reflexivity|]. cbn. repeat split; auto. }
  destruct (Rlt_dec (corruption_draw d) cr) as [Hcorr|Hclean].
  - rewrite Hcorrupt. simplify_simulator.
    destruct (Rlt_dec (duplication_draw d) dr);
      destruct (Rlt_dec 0 (snd range));
      try destruct (Rlt_dec 0 (delay_draw d));
      (eexists _, (Some flipped), _; split; [reflexivity|]; cbn;
       repeat split; auto; try lia; try (left; reflexivity);
       try (destruct Hcases as [[_ ->]|Hc]; [left; reflexivity|right; exact Hc])).
  - simplify_simulator.
    destruct (Rlt_dec (duplication_draw d) dr);
      destruct (Rlt_dec 0 (snd range));
      try destruct (Rlt_dec 0 (delay_draw d));
      (eexists _, (Some packet), _; split; [reflexivity|]; cbn;
       rewrite ?bit_distance_refl;
       repeat split; auto; try lia; try (left; reflexivity)).
Qed.

(** X17: one [process_packet] with draws in range never raises and counts
    the packet as sent. It returns [None], counted as lost, exactly when
    the loss draw is below the loss rate; otherwise it returns the packet
    itself or the packet with one payload bit flipped: same length, the
    seven header bytes intact, at most one bit changed. The rates and the
    delay range are left as they were, and the time slept is 0 or the
    positive delay drawn. *)
Theorem process_packet_frame (d : draws) (packet : bytes) (self : t) :
  draws_ok self packet d ->
  ∃ self' out slept,
    process_packet d packet self = Ok (self', out, slept)
    ∧ packets_sent self' = packets_sent self + 1
    ∧ loss_rate self' = loss_rate self ∧ corruption_rate self' = corruption_rate self
    ∧ duplication_rate self' = duplication_rate self
    ∧ delay_range self' = delay_range self
    ∧ (slept = 0 ∨ (0 < slept ∧ slept = delay_draw d))%R
    ∧ match out with
      | None =>
          (loss_draw d < loss_rate self)%R
          ∧ packets_lost self' = packets_lost self + 1
          ∧ packets_corrupted self' = packets_corrupted self
          ∧ packets_delayed self' = packets_delayed self
      | Some out_packet =>
          ¬ (loss_draw d < loss_rate self)%R
          ∧ packets_lost self' = packets_lost self
          ∧ (out_packet = packet
             ∨ (len packet > 7
                ∧ out_packet = flip_bit (corrupt_pos_draw d) (corrupt_bit_draw d) packet))
          ∧ len out_packet = len packet
          ∧ take 7 out_packet = take 7 packet
          ∧ (bit_distance packet out_packet <= 1)%nat
          ∧ packets_corrupted self <= packets_corrupted self'
             <= packets_corrupted self + 1
          ∧ packets_delayed self <= packets_delayed self'
             <= packets_delayed self + 1
      end.
Proof.
  intros Hok.
  destruct (process_packet_outcome d packet self Hok)
    as (self' & out & slept & Hrun & Hrest).
  exists self', out, slept. split; [exact Hrun|exact Hrest].
Qed.

Local Abbreviation sample_packet :=
  (["000"; "000"; "008"; "000"; "003"; "143"; "K"; "H"; "e"; "l"]%byte).

Lemma sample_draws_ok :
  draws_ok (init (1 / 4) (1 / 4) 0 (0, 0)%R) sample_packet
           (mk_draws (1 / 2) (1 / 8) 8 0 (1 / 2) 0).
Proof.
  unfold draws_ok, random_unit, uniform, draws_for, randint, len.
  cbn [loss_draw corruption_draw duplication_draw corrupt_pos_draw corrupt_bit_draw
       delay_draw delay_range init fst snd length].
  repeat split; try lra; try lia.
  - unfold Rmin. destruct (Rle_dec _ _); lra.
  - unfold Rmax. destruct (Rle_dec _ _); lra.
Qed.

Lemma process_packet_frame_witness :
  draws_ok (init (1 / 4) (1 / 4) 0 (0, 0)%R) sample_packet
           (mk_draws (1 / 2) (1 / 8) 8 0 (1 / 2) 0)
  ∧ ∃ self' out slept,
      process_packet (mk_draws (1 / 2) (1 / 8) 8 0 (1 / 2) 0) sample_packet
                     (init (1 / 4) (1 / 4) 0 (0, 0)%R)
      = Ok (self', out, slept)
      ∧ packets_sent self' = 0 + 1.
Proof.
  split; [exact sample_draws_ok|].
  destruct (process_packet_frame _ _ _ sample_draws_ok)
    as (self' & out & slept & Hrun & Hsent & _).
  exists self', out, slept. split; [exact Hrun|exact Hsent].
Defined.

(** X18: a simulator with loss rate 0 and corruption rate 0, the perfect
    network of the basic test, hands every packet through unchanged
    whatever [random.random()] returns, and counts it as sent and neither
    as lost nor as corrupted. *)
Theorem perfect_network_delivers (d : draws) (packet : bytes) (self : t) :
  loss_rate self = 0%R -> corruption_rate self = 0%R ->
  random_unit (loss_draw d) -> random_unit (corruption_draw d) ->
  ∃ self' slept,
    process_packet d packet self = Ok (self', Some packet, slept)
    ∧ packets_sent self' = packets_sent self + 1
    ∧ packets_lost self' = packets_lost self
    ∧ packets_corrupted self' = packets_corrupted self.
Proof.
  intros Hloss Hcorr [Hl _] [Hc _].
  destruct self as [lr cr dr range sent lost corrupted delayed].
  cbn [loss_rate corruption_rate] in Hloss, Hcorr. subst lr cr.
  unfold process_packet. simplify_simulator.
  destruct (Rlt_dec (loss_draw d) 0) as [Hbad|_]; [lra|].
  destruct (Rlt_dec (corruption_draw d) 0) as [Hbad|_]; [lra|].
  simplify_simulator.
  destruct (Rlt_dec (duplication_draw d) dr);
    destruct (Rlt_dec 0 (snd range));
    try destruct (Rlt_dec 0 (delay_draw d));
    (eexists _, _; split; [reflexivity|]; cbn; auto).
Qed.

Lemma perfect_network_delivers_witness :
  loss_rate (init 0 0 0 (0, 0)%R) = 0%R ∧ corruption_rate (init 0 0 0 (0, 0)%R) = 0%R
  ∧ random_unit (1 / 2) ∧ random_unit 0
  ∧ ∃ self' slept,
      process_packet (mk_draws (1 / 2) 0 0 0 0 0) sample_packet (init 0 0 0 (0, 0)%R)
      = Ok (self', Some sample_packet, slept)
      ∧ packets_sent self' = packets_sent (init 0 0 0 (0, 0)%R) + 1
      ∧ packets_lost self' = packets_lost (init 0 0 0 (0, 0)%R)
      ∧ packets_corrupted self' = packets_corrupted (init 0 0 0 (0, 0)%R).
Proof.
  assert (H1 : random_unit (1 / 2)) by (unfold random_unit; lra).
  assert (H2 : random_unit 0) by (unfold random_unit; lra).
  split; [reflexivity|]. split; [reflexivity|]. split; [exact H1|]. split; [exact H2|].
  apply (perfect_network_delivers (mk_draws (1 / 2) 0 0 0 0 0) sample_packet
           (init 0 0 0 (0, 0)%R) eq_refl eq_refl H1 H2).
Defined.

(** X19: the duplication rate has no effect at all: [process_packet]
    returns the same packet, sleeps as long and moves the counters alike
    whatever the duplication rate and whatever the duplication draw; it
    never hands a packet on twice. *)
Theorem duplication_rate_ignored
    (d : draws) (packet : bytes) (self : t) (other_rate other_draw : R) :
  let self2 := mk (loss_rate self) (corruption_rate self) other_rate (delay_range self)
                  (packets_sent self) (packets_lost self) (packets_corrupted self)
                  (packets_delayed self) in
  let d2 := mk_draws (loss_draw d) (corruption_draw d) (corrupt_pos_draw d)
                     (corrupt_bit_draw d) other_draw (delay_draw d) in
  match process_packet d packet self, process_packet d2 packet self2 with
  | Ok (s1, out1, slept1), Ok (s2, out2, slept2) =>
      out2 = out1 ∧ slept2 = slept1
      ∧ packets_sent s2 = packets_sent s1 ∧ packets_lost s2 = packets_lost s1
      ∧ packets_corrupted s2 = packets_corrupted s1
      ∧ packets_delayed s2 = packets_delayed s1
      ∧ duplication_rate s1 = duplication_rate self ∧ duplication_rate s2 = other_rate
  | Raise e1, Raise e2 => e2 = e1
  | _, _ => False
  end.
Proof.
  destruct self as [lr cr dr range sent lost corrupted delayed].
  destruct d as [ld cd pos bit dd dl].
  unfold process_packet.
  cbv beta iota zeta delta
    [mbind result_bind mret result_ret set_counters loss_rate corruption_rate
     duplication_rate delay_range packets_sent packets_lost packets_corrupted
     packets_delayed loss_draw corruption_draw corrupt_pos_draw corrupt_bit_draw
     duplication_draw delay_draw].
  destruct (Rlt_dec ld lr); [cbn; auto 10|].
  destruct (Rlt_dec cd cr).
  - destruct (_corrupt_packet pos bit packet) as [flipped|e]; [|reflexivity].
    destruct (Rlt_dec dd dr), (Rlt_dec other_draw other_rate),
      (Rlt_dec 0 (snd range)); try destruct (Rlt_dec 0 dl); cbn; auto 10.
  - destruct (Rlt_dec dd dr), (Rlt_dec other_draw other_rate),
      (Rlt_dec 0 (snd range)); try destruct (Rlt_dec 0 dl); cbn; auto 10.
Qed.

(** X20: a packet no longer than the header, so every payload-free ACK,
    that is not lost and that the simulator decides to corrupt is counted
    in [packets_corrupted] and yet handed on unchanged: the corruption
    statistic counts corruptions that did not happen. *)
Theorem corruption_counted_not_done (d : draws) (packet : bytes) (self : t) :
  len packet <= 7 ->
  ¬ (loss_draw d < loss_rate self)%R ->
  (corruption_draw d < corruption_rate self)%R ->
  ∃ self' slept,
    process_packet d packet self = Ok (self', Some packet, slept)
    ∧ packets_corrupted self' = packets_corrupted self + 1.
Proof.
  intros Hshort Hkeep Hcorr.
  pose proof (corrupt_short packet (corrupt_pos_draw d) (corrupt_bit_draw d) Hshort)
    as Hsame.
  destruct self as [lr cr dr range sent lost corrupted delayed].
  cbn [loss_rate corruption_rate] in Hkeep, Hcorr.
  unfold process_packet. simplify_simulator.
  destruct (Rlt_dec (loss_draw d) lr) as [Hbad|_]; [contradiction|].
  destruct (Rlt_dec (corruption_draw d) cr) as [_|Hbad]; [|contradiction].
  rewrite Hsame. simplify_simulator.
  destruct (Rlt_dec (duplication_draw d) dr);
    destruct (Rlt_dec 0 (snd range));
    try destruct (Rlt_dec 0 (delay_draw d));
    (eexists _, _; split; [reflexivity|]; cbn; auto).
Qed.

Lemma corruption_counted_not_done_witness :
  len ["000"; "001"; "002"; "000"; "000"; "253"; "253"]%byte <= 7
  ∧ ¬ (loss_draw (mk_draws (1 / 2) 0 0 0 0 0) < loss_rate (init 0 1 0 (0, 0)%R))%R
  ∧ (corruption_draw (mk_draws (1 / 2) 0 0 0 0 0)
     < corruption_rate (init 0 1 0 (0, 0)%R))%R
  ∧ ∃ self' slept,
      process_packet (mk_draws (1 / 2) 0 0 0 0 0)
                     ["000"; "001"; "002"; "000"; "000"; "253"; "253"]%byte
                     (init 0 1 0 (0, 0)%R)
      = Ok (self', Some ["000"; "001"; "002"; "000"; "000"; "253"; "253"]%byte, slept)
      ∧ packets_corrupted self' = packets_corrupted (init 0 1 0 (0, 0)%R) + 1.
Proof.
  assert (H1 : len ["000"; "001"; "002"; "000"; "000"; "253"; "253"]%byte <= 7)
    by (unfold len; cbn [length]; lia).
  assert (H2 : ¬ (loss_draw (mk_draws (1 / 2) 0 0 0 0 0)
                  < loss_rate (init 0 1 0 (0, 0)%R))%R) by (cbn; lra).
  assert (H3 : (corruption_draw (mk_draws (1 / 2) 0 0 0 0 0)
                < corruption_rate (init 0 1 0 (0, 0)%R))%R) by (cbn; lra).
  split; [exact H1|]. split; [exact H2|]. split; [exact H3|].
  apply (corruption_counted_not_done _ _ _ H1 H2 H3).
Defined.

Lemma draws_ok_frame (self self' : t) (packet : bytes) (d : draws) :
  delay_range self' = delay_range self -> draws_ok self packet d -> draws_ok self' packet d.
Proof. unfold draws_ok. intros ->. auto. Qed.

(** X21: over any sequence of packets sent through the simulator with
    draws in range, no call raises; every packet is counted as sent, every
    [None] returned as lost and nothing else as lost, so lost and delivered
    packets add up to the packets sent; the corrupted and the delayed
    counters grow by at most the number of packets delivered; and each
    packet delivered has the length and the seven header bytes of the
    packet that was sent. *)
Theorem simulator_run_counters (calls : list (draws * bytes)) :
  ∀ self,
    Forall (fun c => draws_ok self (snd c) (fst c)) calls ->
    ∃ final outs,
      run calls self = Ok (final, outs)
      ∧ length outs = length calls
      ∧ packets_sent final = packets_sent self + len calls
      ∧ packets_lost final
        = packets_lost self + (len outs - len (omap (fun out => out) outs))
      ∧ packets_corrupted self <= packets_corrupted final
         <= packets_corrupted self + len (omap (fun out => out) outs)
      ∧ packets_delayed self <= packets_delayed final
         <= packets_delayed self + len (omap (fun out => out) outs)
      ∧ Forall2 (fun c out =>
                   ∀ delivered, out = Some delivered ->
                     len delivered = len (snd c) ∧ take 7 delivered = take 7 (snd c))
                calls outs.
Proof.
  induction calls as [|[d packet] calls IH]; intros self Hok.
  - exists self, []. cbn [run]. unfold len. cbn.
    repeat split; try lia. constructor.
  - apply Forall_cons in Hok as [Hfirst Hrest]. cbn [fst snd] in Hfirst.
    destruct (process_packet_outcome d packet self Hfirst)
      as (self' & out & slept & Hrun & Hsent & _ & _ & _ & Hrange & _ & Hout).
    destruct (IH self') as (final & outs & Hrun' & Hlen & Hs & Hl & Hc & Hd & Hall).
    { eapply Forall_impl; [exact Hrest|]. intros c. apply draws_ok_frame. exact Hrange. }
    exists final, (out :: outs). cbn [run]. rewrite Hrun.
    cbn [mbind result_bind mret result_ret]. rewrite Hrun'.
    cbn [mbind result_bind mret result_ret].
    split; [reflexivity|]. split; [cbn [length]; congruence|].
    rewrite !len_cons.
    destruct out as [delivered|].
    + destruct Hout as (_ & Hlost & _ & Hdl & Htk & _ & Hcor & Hdel).
      change (omap (fun out => out) (Some delivered :: outs))
        with (delivered :: omap (fun out => out) outs).
      rewrite len_cons.
      repeat split; try lia.
      constructor; [|exact Hall]. intros p [= <-]. auto.
    + destruct Hout as (_ & Hlost & Hcor & Hdel).
      change (omap (fun out => out) (None :: outs))
        with (omap (fun out => out) outs).
      repeat split; try lia.
      constructor; [|exact Hall]. intros p. discriminate.
Qed.

Lemma simulator_run_counters_witness :
  Forall (fun c => draws_ok (init (1 / 4) (1 / 4) 0 (0, 0)%R) (snd c) (fst c))
         [(mk_draws (1 / 2) (1 / 8) 8 0 (1 / 2) 0, sample_packet)]
  ∧ ∃ final outs,
      run [(mk_draws (1 / 2) (1 / 8) 8 0 (1 / 2) 0, sample_packet)]
          (init (1 / 4) (1 / 4) 0 (0, 0)%R) = Ok (final, outs)
      ∧ length outs = 1%nat.
Proof.
  assert (H : Forall (fun c => draws_ok (init (1 / 4) (1 / 4) 0 (0, 0)%R) (snd c) (fst c))
                     [(mk_draws (1 / 2) (1 / 8) 8 0 (1 / 2) 0, sample_packet)]).
  { constructor; [exact sample_draws_ok|constructor]. }
  split; [exact H|].
  destruct (simulator_run_counters _ _ H) as (final & outs & Hrun & Hlen & _).
  exists final, outs. split; [exact Hrun|exact Hlen].
Defined.

End SimulatorFacts.

(** ** The statistics counters *)

Section StatisticsFacts.
Import Statistics.

Lemma run_tally (cs : list call) :
  ∀ s,
    segments_sent (run cs s)
    = segments_sent s
      + count_calls (fun c => match c with RecordSend _ => true | _ => false end) cs
    ∧ total_bytes_sent (run cs s) = total_bytes_sent s + Reference.sum_of (sent_sizes cs)
    ∧ segments_received (run cs s)
      = segments_received s
        + count_calls (fun c => match c with RecordReceive _ => true | _ => false end) cs
    ∧ total_bytes_received (run cs s)
      = total_bytes_received s + Reference.sum_of (received_sizes cs)
    ∧ acks_received (run cs s)
      = acks_received s
        + count_calls (fun c => match c with RecordAck => true | _ => false end) cs
    ∧ timeouts (run cs s)
      = timeouts s
        + count_calls (fun c => match c with RecordTimeout => true | _ => false end) cs
    ∧ segments_retransmitted (run cs s)
      = segments_retransmitted s
        + count_calls
            (fun c => match c with RecordRetransmission => true | _ => false end) cs
    ∧ packets_lost (run cs s) = packets_lost s
    ∧ packets_corrupted (run cs s) = packets_corrupted s.
Proof.
  induction cs as [|c cs IH]; intros s.
  - unfold count_calls. cbn. repeat split; lia.
  - change (run (c :: cs) s) with (run cs (run_call c s)).
    destruct (IH (run_call c s)) as (H1 & H2 & H3 & H4 & H5 & H6 & H7 & H8 & H9).
    rewrite H1, H2, H3, H4, H5, H6, H7, H8, H9.
    unfold count_calls, sent_sizes, received_sizes, Reference.sum_of.
    destruct c; cbn [List.filter flat_map app length foldr run_call record_send
      record_receive record_ack record_timeout record_retransmission
      segments_sent segments_received segments_retransmitted packets_lost
      packets_corrupted acks_received timeouts total_bytes_sent total_bytes_received];
      repeat split; lia.
Qed.

(** X22: after any sequence of calls on fresh counters each counter is the
    exact tally of its own calls: segments and bytes sent, segments and
    bytes received, acks, timeouts and retransmissions; and the two
    counters [packets_lost] and [packets_corrupted] are never moved by any
    method, so they stay 0. *)
Theorem statistics_tally (cs : list call) :
  let s := run cs init in
  segments_sent s
  = count_calls (fun c => match c with RecordSend _ => true | _ => false end) cs
  ∧ total_bytes_sent s = Reference.sum_of (sent_sizes cs)
  ∧ segments_received s
    = count_calls (fun c => match c with RecordReceive _ => true | _ => false end) cs
  ∧ total_bytes_received s = Reference.sum_of (received_sizes cs)
  ∧ acks_received s
    = count_calls (fun c => match c with RecordAck => true | _ => false end) cs
  ∧ timeouts s
    = count_calls (fun c => match c with RecordTimeout => true | _ => false end) cs
  ∧ segments_retransmitted s
    = count_calls (fun c => match c with RecordRetransmission => true | _ => false end) cs
  ∧ packets_lost s = 0 ∧ packets_corrupted s = 0.
Proof.
  intros s. unfold s.
  destruct (run_tally cs init) as (H1 & H2 & H3 & H4 & H5 & H6 & H7 & H8 & H9).
  rewrite H1, H2, H3, H4, H5, H6, H7, H8, H9. cbn. repeat split; lia.
Qed.

End StatisticsFacts.

(** ** Truncated and extended packets *)

Section LengthFacts.
Import InternetChecksum PacketStructure Wire.

(** X23: a packet that [validate_packet] accepts is rejected once bytes
    are cut off its end or added after it, whatever the bytes: a buffer
    shorter than the header for being too short, any other for its length
    field, which no longer counts the bytes after the header. *)
Theorem resized_packet_rejected (packet extra : bytes) (n : nat) :
  fst (validate_packet packet) = true ->
  ((n < length packet)%nat -> fst (validate_packet (take n packet)) = false)
  ∧ (extra ≠ [] -> fst (validate_packet (packet ++ extra)) = false).
Proof.
  intros Hvalid.
  destruct (short_or_split packet) as [H | (b0&b1&b2&b3&b4&b5&b6&rest&->)].
  { unfold validate_packet in Hvalid. rewrite validate_try_short in Hvalid by exact H.
    discriminate. }
  apply validate_cons7 in Hvalid as [Hl _]. split.
  - intros Hn. apply not_true_is_false. intros Hcut.
    destruct (decide (n < 7)%nat) as [Hshort|Hlong].
    + unfold validate_packet in Hcut. rewrite validate_try_short in Hcut.
      * discriminate.
      * rewrite len_take. lia.
    + replace n with (7 + (n - 7))%nat in Hcut by lia.
      change (take (7 + (n - 7)) (b0 :: b1 :: b2 :: b3 :: b4 :: b5 :: b6 :: rest))
        with (b0 :: b1 :: b2 :: b3 :: b4 :: b5 :: b6 :: take (n - 7) rest) in Hcut.
      apply validate_cons7 in Hcut as [Hl' _].
      rewrite len_take in Hl'. cbn [length] in Hn. unfold len in *. lia.
  - intros Hextra. apply not_true_is_false. intros Hext.
    change ((b0 :: b1 :: b2 :: b3 :: b4 :: b5 :: b6 :: rest) ++ extra)
      with (b0 :: b1 :: b2 :: b3 :: b4 :: b5 :: b6 :: (rest ++ extra)) in Hext.
    apply validate_cons7 in Hext as [Hl' _]. rewrite len_app in Hl'.
    destruct extra as [|x extra]; [contradiction|].
    rewrite len_cons in Hl'. pose proof (len_nonneg extra). lia.
Qed.

Local Abbreviation hello_packet :=
  (["000"; "000"; "008"; "000"; "003"; "143"; "K"; "H"; "e"; "l"]%byte).

Lemma resized_packet_rejected_witness :
  fst (validate_packet hello_packet) = true
  ∧ ((9 < length hello_packet)%nat -> fst (validate_packet (take 9 hello_packet)) = false)
  ∧ ([x00] ≠ [] -> fst (validate_packet (hello_packet ++ [x00])) = false).
Proof.
  assert (Hv : fst (validate_packet hello_packet) = true) by (vm_compute; reflexivity).
  split; [exact Hv|]. apply (resized_packet_rejected hello_packet [x00] 9 Hv).
Defined.

End LengthFacts.
